(** * lichess-api-demo: the game controller, its notation helper and the
      visualization trainer, embedded and checked against the specification.

    Layout of the development:
    - [Js]            the few JavaScript string and array operations the code uses;
    - [Util]          src/util.ts ([uciToAlgebraic], [speakMove], [getLastMove]);
    - [Trainer]       pieceSetManager.ts ([VisualizationTrainer]);
    - [RulesEngine]   the interface of the chess library the controller calls;
    - [Game]          game.ts ([GameCtrl]);
    - [SimpleChess]   one concrete rules engine, used to run the controller;
    - the theorems, grouped by component. *)

From Stdlib Require Import ZArith Lia Ascii.
From stdpp Require Import base strings list gmap.



(* ===================================================================== *)
(** ** JavaScript strings and arrays                                      *)
(* ===================================================================== *)

(** A JS string is read here as the sequence of its code units; the tokens
    and literals the program handles are ASCII, and [toUpperCase] is
    modelled on that range. *)
Module Js.

(** [s.length] *)
Definition length (s : string) : nat := String.length s.

(** A string in a condition: [''] is falsy, every other string truthy. *)
Definition truthy (s : string) : bool :=
  match s with
  | EmptyString => false
  | String _ _ => true
  end.

(** [s.substring(a, b)] for [a <= b]: the code units of index [a] up to,
    not including, [b], cut at the end of the string. *)
Definition substring (s : string) (a b : nat) : string :=
  String.substring a (b - a) s.

(** [s.substring(a)]: everything from index [a] on. *)
Definition substringFrom (s : string) (a : nat) : string :=
  String.substring a (String.length s - a) s.

(** [s.substr(a, n)]: [n] code units starting at index [a]. *)
Definition substr (s : string) (a n : nat) : string :=
  String.substring a n s.

Definition upperAscii (c : ascii) : ascii :=
  let n := nat_of_ascii c in
  if (97 <=? n)%nat && (n <=? 122)%nat then ascii_of_nat (n - 32) else c.

(** The strings on which this module speaks for JavaScript where letter
    case is concerned: every code unit below 128. *)
Fixpoint isAscii (s : string) : bool :=
  match s with
  | EmptyString => true
  | String c s' => (nat_of_ascii c <? 128)%nat && isAscii s'
  end.

(** [s.toUpperCase()] on ASCII strings ([isAscii]). Beyond them
    JavaScript also maps other letters, to code units this string type
    does not have or to more than one, and this function is not
    [toUpperCase]; statements about its result are made for ASCII input. *)
Fixpoint toUpperCase (s : string) : string :=
  match s with
  | EmptyString => EmptyString
  | String c s' => String (upperAscii c) (toUpperCase s')
  end.

(** [s.split(sep)] for a one-character separator: [''.split(' ')] is
    [['']], and two separators in a row give an empty piece. *)
Fixpoint split (sep : ascii) (s : string) : list string :=
  match s with
  | EmptyString => [EmptyString]
  | String c s' =>
      if Ascii.eqb c sep then EmptyString :: split sep s'
      else match split sep s' with
           | [] => [String c EmptyString]
           | w :: ws => String c w :: ws
           end
  end.

(** [xs.indexOf(x)]: the first index holding [x], or [-1]. *)
Fixpoint indexOf {A} `{EqDecision A} (xs : list A) (x : A) : Z :=
  match xs with
  | [] => (-1)%Z
  | y :: ys =>
      if decide (y = x) then 0%Z
      else let i := indexOf ys x in
           if (i <? 0)%Z then (-1)%Z else (i + 1)%Z
  end.

End Js.

(** The two sides, as chessground and chessops name them. *)
Inductive Color := white | black.

#[global] Instance Color_eq_dec : EqDecision Color.
Proof. solve_decision. Defined.

Definition opposite (c : Color) : Color :=
  match c with white => black | black => white end.

Definition colorName (c : Color) : string :=
  match c with white => "white" | black => "black" end.

(** What a piece of code leaves behind: a value, or a thrown exception. *)
Inductive Thrown :=
| TypeError (what : string)
| FenError (what : string)
| PositionError (what : string)
| EngineError (what : string).

Inductive Completion (A : Type) :=
| Normal (a : A)
| Throw (e : Thrown).
Arguments Normal {A} a.
Arguments Throw {A} e.

(** A [SpeechSynthesisUtterance]; rate, pitch and volume in tenths. *)
Record Utterance := {
  text : string;
  rate : nat;
  pitch : nat;
  volume : nat
}.

(* ===================================================================== *)
(** ** src/util.ts                                                        *)
(* ===================================================================== *)

Module Util.

(** Convert UCI notation to algebraic notation. *)
Definition uciToAlgebraic (uci : string) : string :=
  if negb (Js.truthy uci) || (Js.length uci <? 4)%nat then ""
  else
    let from := Js.substring uci 0 2 in
    let to := Js.substring uci 2 4 in
    let promotion := if (4 <? Js.length uci)%nat then Js.substringFrom uci 4 else "" in
    let move := from +:+ "-" +:+ to in
    if Js.truthy promotion then move +:+ "=" +:+ Js.toUpperCase promotion
    else move.

(** Text-to-speech: what [speechSynthesis.speak] receives, if the window
    has speech synthesis at all. *)
Definition speakMove (hasSpeech : bool) (move : string) (color : Color)
  : option Utterance :=
  if hasSpeech then
    Some {| text := colorName color +:+ " plays " +:+ move;
            rate := 8;
            pitch := match color with white => 11 | black => 9 end;
            volume := 7 |}
  else None.

Record LastMove := {
  uci : string;
  algebraic : string;
  color : Color
}.

(** Get the last move from the moves array. *)
Definition getLastMove (moves : list string) : option LastMove :=
  match last moves with
  | None => None
  | Some lastUci =>
      let isWhiteMove := (List.length moves mod 2 =? 1)%nat in
      Some {| uci := lastUci;
              algebraic := uciToAlgebraic lastUci;
              color := if isWhiteMove then white else black |}
  end.

End Util.

(* ===================================================================== *)
(** ** pieceSetManager.ts: the visualization trainer                      *)
(* ===================================================================== *)

Module Trainer.

Inductive VisualizationMode :=
| standard | minimal | checkers | monochrome | invisible | memory | blindfold.

#[global] Instance VisualizationMode_eq_dec : EqDecision VisualizationMode.
Proof. solve_decision. Defined.

Definition modeName (m : VisualizationMode) : string :=
  match m with
  | standard => "standard" | minimal => "minimal" | checkers => "checkers"
  | monochrome => "monochrome" | invisible => "invisible"
  | memory => "memory" | blindfold => "blindfold"
  end.

Record VisualizationSettings := {
  mode : VisualizationMode;
  showMoves : bool;
  showTargets : bool;
  memoryTime : option Z
}.

(** Subscribers are opaque functions of the page; a subscriber is kept as
    a handle and each call is recorded with the settings copy it got.
    Subscribers are taken to return normally and not to call back into
    the trainer (the one in game.ts only asks for a redraw). *)
Definition Callback := nat.
Definition TimerId := nat.

Inductive Event :=
| Notified (cb : Callback) (snapshot : VisualizationSettings)
| SetTimeout (timer : TimerId) (ms : Z)
| ClearTimeout (timer : TimerId)
| RevealPiece (square : string) (timer : TimerId).

Record VisualizationTrainer := {
  currentMode : VisualizationMode;
  settings : VisualizationSettings;
  callbacks : list Callback;
  memoryTimer : option TimerId
}.

(** The trainer together with what it touches outside itself: the class
    list of the [.cg-wrap] element (if the page has one), the timer
    handle [setTimeout] hands out next, and the calls made so far. *)
Record World := {
  trainer : VisualizationTrainer;
  boardElement : option (gset string);
  nextTimer : TimerId;
  events : list Event
}.

Definition initial : VisualizationTrainer :=
  {| currentMode := standard;
     settings := {| mode := standard; showMoves := true;
                    showTargets := true; memoryTime := Some 5000%Z |};
     callbacks := [];
     memoryTimer := None |}.

Definition withTrainer (w : World) (t : VisualizationTrainer) : World :=
  {| trainer := t; boardElement := boardElement w;
     nextTimer := nextTimer w; events := events w |}.

Definition emit (w : World) (es : list Event) : World :=
  {| trainer := trainer w; boardElement := boardElement w;
     nextTimer := nextTimer w; events := events w ++ es |}.

Definition getCurrentMode (w : World) : VisualizationMode :=
  currentMode (trainer w).

(** A copy of the settings object. *)
Definition getSettings (w : World) : VisualizationSettings :=
  settings (trainer w).

(** A number in a condition: [0] and [undefined] are falsy. *)
Definition truthyTime (t : option Z) : bool :=
  match t with
  | Some ms => negb (ms =? 0)%Z
  | None => false
  end.

Definition notifyListeners (w : World) : World :=
  emit w (map (fun cb => Notified cb (getSettings w)) (callbacks (trainer w))).

Definition startMemoryTimer (w : World) : World :=
  let t := trainer w in
  if truthyTime (memoryTime (settings t)) then
    let id := nextTimer w in
    {| trainer := {| currentMode := currentMode t; settings := settings t;
                     callbacks := callbacks t; memoryTimer := Some id |};
       boardElement := boardElement w;
       nextTimer := S id;
       events := events w ++ [SetTimeout id (default 0%Z (memoryTime (settings t)))] |}
  else w.

Definition clearMemoryTimer (w : World) : World :=
  let t := trainer w in
  match memoryTimer t with
  | Some id =>
      {| trainer := {| currentMode := currentMode t; settings := settings t;
                       callbacks := callbacks t; memoryTimer := None |};
         boardElement := boardElement w;
         nextTimer := nextTimer w;
         events := events w ++ [ClearTimeout id] |}
  | None => w
  end.

Definition vizClasses : gset string :=
  {[ "viz-standard"; "viz-minimal"; "viz-checkers"; "viz-monochrome";
     "viz-invisible"; "viz-memory"; "viz-memory-hidden"; "viz-blindfold" ]}.

Definition updateBoardMode (subMode : option string) (w : World) : World :=
  match boardElement w with
  | None => w
  | Some classList =>
      let t := trainer w in
      let modeClass :=
        match subMode with
        | Some s => if Js.truthy s then s else modeName (currentMode t)
        | None => modeName (currentMode t)
        end in
      let c1 := (classList ∖ vizClasses) ∪ {[ "viz-" +:+ modeClass ]} in
      let c2 := if negb (showMoves (settings t)) then c1 ∪ {[ "hide-moves" ]}
                else c1 ∖ {[ "hide-moves" ]} in
      let c3 := if negb (showTargets (settings t)) then c2 ∪ {[ "hide-targets" ]}
                else c2 ∖ {[ "hide-targets" ]} in
      {| trainer := t; boardElement := Some c3;
         nextTimer := nextTimer w; events := events w |}
  end.

Definition setMode (m : VisualizationMode) (w : World) : World :=
  let t := trainer w in
  if decide (currentMode t = m) then w
  else
    let s := settings t in
    let w1 := withTrainer w
      {| currentMode := m;
         settings := {| mode := m; showMoves := showMoves s;
                        showTargets := showTargets s; memoryTime := memoryTime s |};
         callbacks := callbacks t; memoryTimer := memoryTimer t |} in
    let w2 := clearMemoryTimer w1 in
    let w3 := notifyListeners w2 in
    let w4 := updateBoardMode None w3 in
    if bool_decide (m = memory) && truthyTime (memoryTime (settings (trainer w4)))
    then startMemoryTimer w4
    else w4.

Definition modes : list VisualizationMode :=
  [standard; minimal; checkers; monochrome; invisible; memory; blindfold].

(** [modes[nextIndex]] is always defined (lemma [cycle_index_defined]
    below); the [None] branch is never taken. *)
Definition cycleMode (w : World) : World :=
  let currentIndex := Js.indexOf modes (currentMode (trainer w)) in
  let nextIndex := ((currentIndex + 1) mod Z.of_nat (List.length modes))%Z in
  match modes !! Z.to_nat nextIndex with
  | Some m => setMode m w
  | None => w
  end.

Definition subscribe (cb : Callback) (w : World) : World :=
  let t := trainer w in
  withTrainer w {| currentMode := currentMode t; settings := settings t;
                   callbacks := callbacks t ++ [cb]; memoryTimer := memoryTimer t |}.

Definition unsubscribe (cb : Callback) (w : World) : World :=
  let t := trainer w in
  withTrainer w {| currentMode := currentMode t; settings := settings t;
                   callbacks := filter (fun c => c ≠ cb) (callbacks t);
                   memoryTimer := memoryTimer t |}.

(** The subscriber calls among the events, in order. *)
Definition notified (es : list Event) : list (Callback * VisualizationSettings) :=
  omap (λ e, match e with Notified cb snap => Some (cb, snap) | _ => None end) es.

(** The timer calls among the events, in order. *)
Definition isTimerCall (e : Event) : bool :=
  match e with Notified _ _ => false | _ => true end.

Definition timerCalls (es : list Event) : list Event :=
  filter (λ e, isTimerCall e = true) es.

(** The order the cycle button walks through, read as a successor. *)
Definition successor (m : VisualizationMode) : VisualizationMode :=
  match m with
  | standard => minimal
  | minimal => checkers
  | checkers => monochrome
  | monochrome => invisible
  | invisible => memory
  | memory => blindfold
  | blindfold => standard
  end.

(** [n] presses of the cycle button. *)
Fixpoint cycleTimes (n : nat) (w : World) : World :=
  match n with
  | O => w
  | S k => cycleTimes k (cycleMode w)
  end.

(** The part of [setMode] after the two assignments. *)
Definition afterAssign (m : VisualizationMode) (w1 : World) : World :=
  let w4 := updateBoardMode None (notifyListeners (clearMemoryTimer w1)) in
  if bool_decide (m = memory) && truthyTime (memoryTime (settings (trainer w4)))
  then startMemoryTimer w4 else w4.

(** What the helpers of [setMode] leave alone. *)
Record sameSubscription (w w' : World) : Prop := {
  same_mode : currentMode (trainer w') = currentMode (trainer w);
  same_settings : settings (trainer w') = settings (trainer w);
  same_callbacks : callbacks (trainer w') = callbacks (trainer w);
  same_notified : notified (events w') = notified (events w)
}.

(** The trainer as the page first has it, with two subscribers. *)
Definition demoWorld : World :=
  {| trainer := {| currentMode := standard; settings := settings initial;
                   callbacks := [1; 2]; memoryTimer := None |};
     boardElement := Some {[ "cg-wrap" ]};
     nextTimer := 1;
     events := [] |}.

(** *** The rest of the class *)

(** [toggleShowMoves()] *)
Definition toggleShowMoves (w : World) : World :=
  let t := trainer w in
  let s := settings t in
  updateBoardMode None (notifyListeners (withTrainer w
    {| currentMode := currentMode t;
       settings := {| mode := mode s; showMoves := negb (showMoves s);
                      showTargets := showTargets s; memoryTime := memoryTime s |};
       callbacks := callbacks t; memoryTimer := memoryTimer t |})).

(** [toggleShowTargets()] *)
Definition toggleShowTargets (w : World) : World :=
  let t := trainer w in
  let s := settings t in
  updateBoardMode None (notifyListeners (withTrainer w
    {| currentMode := currentMode t;
       settings := {| mode := mode s; showMoves := showMoves s;
                      showTargets := negb (showTargets s); memoryTime := memoryTime s |};
       callbacks := callbacks t; memoryTimer := memoryTimer t |})).

(** [setMemoryTime(seconds)], for a whole number of seconds. *)
Definition setMemoryTime (seconds : Z) (w : World) : World :=
  let t := trainer w in
  let s := settings t in
  let w1 := withTrainer w
    {| currentMode := currentMode t;
       settings := {| mode := mode s; showMoves := showMoves s;
                      showTargets := showTargets s;
                      memoryTime := Some (seconds * 1000)%Z |};
       callbacks := callbacks t; memoryTimer := memoryTimer t |} in
  if decide (currentMode t = memory) then startMemoryTimer (clearMemoryTimer w1)
  else w1.

(** Initialize the board with current mode. *)
Definition initializeBoard (w : World) : World := updateBoardMode None w.

(** Reset memory mode (useful when game state changes). *)
Definition resetMemoryMode (w : World) : World :=
  if decide (currentMode (trainer w) = memory)
  then startMemoryTimer (updateBoardMode None (clearMemoryTimer w))
  else w.

(** The function [startMemoryTimer] hands to [setTimeout], when it runs. *)
Definition memoryTimerFired (w : World) : World :=
  updateBoardMode (Some "memory-hidden") w.

(** The object [modeDescriptions], as its entries in insertion order. *)
Definition modeDescriptions : list (string * string) :=
  [ ("standard", "Standard - Full detailed pieces");
    ("minimal", "Minimal - Simple circular pieces");
    ("checkers", "Checkers - All pieces look like checkers");
    ("monochrome", "Monochrome - Both colors look identical");
    ("invisible", "Invisible - Pieces show only on interaction");
    ("memory", "Memory - Pieces disappear after time");
    ("blindfold", "Blindfold - Complete visualization training") ].

(** [obj[key]] on an object given by its entries. *)
Fixpoint property (entries : list (string * string)) (key : string) : option string :=
  match entries with
  | [] => None
  | (k, v) :: rest => if decide (k = key) then Some v else property rest key
  end.

(** [getModeDescription()]; [None] stands for [undefined]. *)
Definition getModeDescription (w : World) : option string :=
  property modeDescriptions (modeName (currentMode (trainer w))).

(** [getAllModes()]: value and label of each entry. *)
Definition getAllModes : list (string * string) :=
  (λ '(value, label), (value, label)) <$> modeDescriptions.

(** *** Legacy compatibility: the [pieceSetManager] object *)

Inductive PieceSet := cburnett | transp.

#[global] Instance PieceSet_eq_dec : EqDecision PieceSet.
Proof. solve_decision. Defined.

Definition getCurrentPieceSet (w : World) : PieceSet :=
  if decide (getCurrentMode w = standard) then cburnett else transp.

Definition setPieceSet (set : PieceSet) (w : World) : World :=
  setMode (if decide (set = cburnett) then standard else minimal) w.

Definition togglePieceSet (w : World) : World :=
  setMode (if decide (getCurrentMode w = standard) then minimal else standard) w.

(** Handle piece interaction (for invisible mode). [found] says whether
    the page has a piece element on the square. [RevealPiece] records what
    is then done to it: the class [temporarily-visible] is added and a
    timeout of 2000 ms is set, under the handle given, to remove it again;
    the handle is not kept. *)
Definition onPieceInteraction (square : string) (found : bool) (w : World) : World :=
  if decide (currentMode (trainer w) = invisible) then
    if found then
      {| trainer := trainer w; boardElement := boardElement w;
         nextTimer := S (nextTimer w);
         events := events w ++ [RevealPiece square (nextTimer w)] |}
    else w
  else w.

(** The timeouts set by [onPieceInteraction], oldest first. *)
Definition reveals (es : list Event) : list (string * TimerId) :=
  omap (λ e, match e with RevealPiece sq id => Some (sq, id) | _ => None end) es.

(** *** Runs of calls *)

(** A call on the trainer from the page, or the page replacing the board
    element ([None]: the page has no [.cg-wrap]). *)
Inductive Call :=
| CallSetMode (m : VisualizationMode)
| CallCycleMode
| CallToggleShowMoves
| CallToggleShowTargets
| CallSetMemoryTime (seconds : Z)
| CallSubscribe (cb : Callback)
| CallUnsubscribe (cb : Callback)
| CallInitializeBoard
| CallResetMemoryMode
| CallMemoryTimerFired
| CallSetPieceSet (set : PieceSet)
| CallTogglePieceSet
| PageBoard (classList : option (gset string))
| CallPieceInteraction (square : string) (found : bool).

Definition call (c : Call) (w : World) : World :=
  match c with
  | CallSetMode m => setMode m w
  | CallCycleMode => cycleMode w
  | CallToggleShowMoves => toggleShowMoves w
  | CallToggleShowTargets => toggleShowTargets w
  | CallSetMemoryTime seconds => setMemoryTime seconds w
  | CallSubscribe cb => subscribe cb w
  | CallUnsubscribe cb => unsubscribe cb w
  | CallInitializeBoard => initializeBoard w
  | CallResetMemoryMode => resetMemoryMode w
  | CallMemoryTimerFired => memoryTimerFired w
  | CallSetPieceSet set => setPieceSet set w
  | CallTogglePieceSet => togglePieceSet w
  | PageBoard classList =>
      {| trainer := trainer w; boardElement := classList;
         nextTimer := nextTimer w; events := events w |}
  | CallPieceInteraction square found => onPieceInteraction square found w
  end.

Definition run (cs : list Call) (w : World) : World := foldl (λ w c, call c w) w cs.

(** The module's global instance on a page, before any call. *)
Definition start (page : option (gset string)) (firstTimer : TimerId) : World :=
  {| trainer := initial; boardElement := page; nextTimer := firstTimer; events := [] |}.

(** The memory timers set (a [SetTimeout] is made by [startMemoryTimer]
    alone) and not cleared since, oldest first. *)
Definition pendingAfter (p : list TimerId) (e : Event) : list TimerId :=
  match e with
  | SetTimeout id _ => p ++ [id]
  | ClearTimeout id => filter (λ x, x ≠ id) p
  | Notified _ _ => p
  | RevealPiece _ _ => p
  end.

Definition pending (es : list Event) : list TimerId := foldl pendingAfter [] es.

(** What every run of calls keeps true of the trainer. *)
Record Consistent (w : World) : Prop := {
  settings_mode : mode (settings (trainer w)) = currentMode (trainer w);
  timer_in_memory : is_Some (memoryTimer (trainer w)) → currentMode (trainer w) = memory;
  timer_pending : pending (events w) = option_list (memoryTimer (trainer w))
}.

(** A world that differs from another in the page and in subscriber
    calls only. *)
Definition sameTimers (w w' : World) : Prop :=
  trainer w' = trainer w ∧ pending (events w') = pending (events w).

End Trainer.

(* ===================================================================== *)
(** ** The rules engine the controller calls (chessops)                   *)
(* ===================================================================== *)

(** A chessground square name such as [e2]. *)
Definition Key := string.

(** chessops' [Result]: a value or an error, opened with [unwrap]. *)
Inductive Result (A : Type) :=
| Ok (a : A)
| Err (e : Thrown).
Arguments Ok {A} a.
Arguments Err {A} e.

(** The chess library is not part of the repository. The controller is
    written against this interface: the operations game.ts calls, with the
    shapes their call sites give them. [play] is called on a value that
    may be [undefined] (the result of [parseUci] is passed on unchecked),
    mutates the position in place and may throw, so it maps a position to
    the position left behind and the exception, if any. [isLegal] is what
    the library offers for testing a move; game.ts never calls it. *)
Class RulesEngine := {
  Setup : Type;
  Position : Type;
  Move : Type;
  Dests : Type;
  defaultSetup : Setup;
  defaultPosition : Position;
  parseFen : string → Result Setup;
  fromSetup : Setup → Result Position;
  parseUci : string → option Move;
  play : option Move → Position → Position * option Thrown;
  isLegal : Position → Move → bool;
  turn : Position → Color;
  isCheck : Position → bool;
  toSetup : Position → Setup;
  makeFen : Setup → string;
  chessgroundDests : Position → Dests
}.

(* ===================================================================== *)
(** ** game.ts: the game controller                                       *)
(* ===================================================================== *)

Module Game.

(** The fields of the lichess board API objects that the controller reads. *)
Record Player := {
  playerId : option string;
  playerName : option string
}.

Record GameState := {
  moves : string;
  status : string;
  wtime : Z;
  btime : Z
}.

Record Game := {
  gameId : string;
  initialFen : string;
  whitePlayer : Player;
  blackPlayer : Player;
  state : GameState
}.

(** A message of the stream is an untyped object: [handle] reads its
    [type], and then the same object as a [Game] or as a [GameState]. *)
Record Msg := {
  msgType : option string;
  asGame : Game;
  asState : GameState
}.

(** What the handler finds around it when it runs: the clock, whether the
    window can speak, and the identity of the logged-in user, if any. *)
Record Env := {
  now : Z;
  hasSpeech : bool;
  me : option string
}.

Section Controller.
Context `{E : RulesEngine}.

(** The configuration handed to chessground. *)
Record CgConfig := {
  orientation : Color;
  fen : string;
  cgLastMove : option (Key * Key);
  turnColor : Color;
  check : bool;
  movableFree : bool;
  movableColor : option Color;
  dests : Dests
}.

(** Calls that leave the controller. What chessground does with a
    queued premove on [PlayPremove] is its own business. *)
Inductive Effect :=
| Speak (u : Utterance)
| Redraw
| ConsoleError (message : string) (msg : Msg)
| FetchBody (url : string) (method : string)
| PlayPremove
| SetInterval (ms : nat)
| ClearInterval
| StreamClose
| TrainerSubscribe.

Record GameCtrl := {
  game : Game;
  pov : Color;
  chess : Position;
  lastMove : option (Key * Key);
  lastUpdateAt : Z;
  ground : option CgConfig;
  lastMoveCount : nat
}.

(** The controller and the calls it has made so far. Code runs as a
    function on this pair; an exception leaves the mutations made
    before it in place. *)
Record Sigma := {
  ctrl : GameCtrl;
  trace : list Effect
}.

Definition M (A : Type) : Type := Sigma → Sigma * Completion A.

#[export] Instance M_ret : MRet M := λ A a σ, (σ, Normal a).
#[export] Instance M_bind : MBind M := λ A B f m σ,
  match m σ with
  | (σ', Normal a) => f a σ'
  | (σ', Throw e) => (σ', Throw e)
  end.

Definition gets {A} (f : GameCtrl → A) : M A := λ σ, (σ, Normal (f (ctrl σ))).
Definition modify (f : GameCtrl → GameCtrl) : M unit :=
  λ σ, ({| ctrl := f (ctrl σ); trace := trace σ |}, Normal tt).
Definition emit (e : Effect) : M unit :=
  λ σ, ({| ctrl := ctrl σ; trace := trace σ ++ [e] |}, Normal tt).
Definition throw {A} (e : Thrown) : M A := λ σ, (σ, Throw e).

Definition unwrap {A} (r : Result A) : M A :=
  match r with
  | Ok a => mret a
  | Err e => throw e
  end.

Definition set_game (g : Game) (c : GameCtrl) : GameCtrl :=
  {| game := g; pov := pov c; chess := chess c; lastMove := lastMove c;
     lastUpdateAt := lastUpdateAt c; ground := ground c;
     lastMoveCount := lastMoveCount c |}.

Definition set_state (s : GameState) (c : GameCtrl) : GameCtrl :=
  set_game {| gameId := gameId (game c); initialFen := initialFen (game c);
              whitePlayer := whitePlayer (game c);
              blackPlayer := blackPlayer (game c); state := s |} c.

Definition set_chess (p : Position) (c : GameCtrl) : GameCtrl :=
  {| game := game c; pov := pov c; chess := p; lastMove := lastMove c;
     lastUpdateAt := lastUpdateAt c; ground := ground c;
     lastMoveCount := lastMoveCount c |}.

Definition set_lastMove (m : option (Key * Key)) (c : GameCtrl) : GameCtrl :=
  {| game := game c; pov := pov c; chess := chess c; lastMove := m;
     lastUpdateAt := lastUpdateAt c; ground := ground c;
     lastMoveCount := lastMoveCount c |}.

Definition set_lastUpdateAt (t : Z) (c : GameCtrl) : GameCtrl :=
  {| game := game c; pov := pov c; chess := chess c; lastMove := lastMove c;
     lastUpdateAt := t; ground := ground c;
     lastMoveCount := lastMoveCount c |}.

Definition set_ground (g : option CgConfig) (c : GameCtrl) : GameCtrl :=
  {| game := game c; pov := pov c; chess := chess c; lastMove := lastMove c;
     lastUpdateAt := lastUpdateAt c; ground := g;
     lastMoveCount := lastMoveCount c |}.

Definition set_lastMoveCount (n : nat) (c : GameCtrl) : GameCtrl :=
  {| game := game c; pov := pov c; chess := chess c; lastMove := lastMove c;
     lastUpdateAt := lastUpdateAt c; ground := ground c;
     lastMoveCount := n |}.

(** [ground.set({ turnColor })]: one field of the board's configuration. *)
Definition set_turnColor (t : Color) (g : CgConfig) : CgConfig :=
  {| orientation := orientation g; fen := fen g; cgLastMove := cgLastMove g;
     turnColor := t; check := check g; movableFree := movableFree g;
     movableColor := movableColor g; dests := dests g |}.

(** [state.moves.split(' ').filter(m => m)] *)
Definition tokens (moves : string) : list string :=
  filter (λ m, Js.truthy m = true) (Js.split " "%char moves).

(** Convert UCI notation to algebraic notation (the controller's own
    copy of the helper in util.ts). *)
Definition uciToAlgebraic (uci : string) : string :=
  if negb (Js.truthy uci) || (Js.length uci <? 4)%nat then ""
  else
    let from := Js.substring uci 0 2 in
    let to := Js.substring uci 2 4 in
    let promotion := if (4 <? Js.length uci)%nat then Js.substringFrom uci 4 else "" in
    let move := from +:+ "-" +:+ to in
    if Js.truthy promotion then move +:+ "=" +:+ Js.toUpperCase promotion
    else move.

(** Text-to-speech functionality. *)
Definition speakMove (env : Env) (move : string) (color : Color) : M unit :=
  if hasSpeech env then
    emit (Speak {| text := colorName color +:+ " plays " +:+ move;
                   rate := 8;
                   pitch := match color with white => 11 | black => 9 end;
                   volume := 7 |})
  else mret tt.

Definition playing (c : GameCtrl) : bool :=
  bool_decide (status (state (game c)) = "started").

Definition chessgroundConfig (c : GameCtrl) : CgConfig :=
  {| orientation := pov c;
     fen := makeFen (toSetup (chess c));
     cgLastMove := lastMove c;
     turnColor := turn (chess c);
     check := isCheck (chess c);
     movableFree := false;
     movableColor := if playing c then Some (pov c) else None;
     dests := chessgroundDests (chess c) |}.

Definition setGround (cg : CgConfig) : M unit := modify (set_ground (Some cg)).

(** [this.chess.play(parseUci(uci)!)]: the non-null assertion does
    nothing at run time. *)
Definition playUci (uci : string) : M unit := λ σ,
  let '(p, thrown) := play (parseUci uci) (chess (ctrl σ)) in
  ({| ctrl := set_chess p (ctrl σ); trace := trace σ |},
   match thrown with
   | None => Normal tt
   | Some e => Throw e
   end).

(** [xs.forEach(f)] *)
Fixpoint forEach {A} (f : A → M unit) (xs : list A) : M unit :=
  match xs with
  | [] => mret tt
  | x :: rest => f x;; forEach f rest
  end.

Definition onUpdate (env : Env) : M unit :=
  g ← gets game;
  setup ← (if bool_decide (initialFen g = "startpos") then mret defaultSetup
           else unwrap (parseFen (initialFen g)));
  p ← unwrap (fromSetup setup);
  modify (set_chess p);;
  let moves := tokens (moves (state g)) in
  (* Check if there's a new move to speak *)
  let currentMoveCount := List.length moves in
  seen ← gets lastMoveCount;
  (if (seen <? currentMoveCount)%nat then
     let algebraic := match last moves with
                      | Some lastMove => uciToAlgebraic lastMove
                      | None => ""
                      end in
     let color := if (currentMoveCount mod 2 =? 1)%nat then white else black in
     speakMove env algebraic color;;
     modify (set_lastMoveCount currentMoveCount)
   else mret tt);;
  forEach playUci moves;;
  modify (set_lastMove
            (match last moves with
             | Some lastMove => Some (Js.substr lastMove 0 2, Js.substr lastMove 2 2)
             | None => None
             end));;
  modify (set_lastUpdateAt (now env));;
  c ← gets id;
  (match ground c with
   | Some _ => modify (set_ground (Some (chessgroundConfig c)))
   | None => mret tt
   end);;
  if bool_decide (turn (chess c) = pov c) then
    match ground c with
    | Some _ => emit PlayPremove
    | None => mret tt
    end
  else mret tt.

Definition userMove (orig dest : Key) : M unit :=
  c ← gets id;
  modify (set_ground (set_turnColor (opposite (pov c)) <$> ground c));;
  emit (FetchBody ("/api/board/game/" +:+ gameId (game c) +:+ "/move/" +:+ orig +:+ dest)
                  "post").

Definition resign : M unit :=
  c ← gets id;
  emit (FetchBody ("/api/board/game/" +:+ gameId (game c) +:+ "/resign") "post").

Definition onUnmount : M unit :=
  emit StreamClose;; emit ClearInterval.

Definition handle (env : Env) (msg : Msg) : M unit :=
  if bool_decide (msgType msg = Some "gameFull") then
    modify (set_game (asGame msg));;
    onUpdate env;;
    emit Redraw
  else if bool_decide (msgType msg = Some "gameState") then
    modify (set_state (asState msg));;
    onUpdate env;;
    emit Redraw
  else
    emit (ConsoleError ("Unknown message type: " +:+ default "undefined" (msgType msg)) msg).

(** The field initialisers of the class and the first two assignments
    of its constructor. *)
Definition fresh (env : Env) (g : Game) : GameCtrl :=
  {| game := g;
     pov := if bool_decide (playerId (blackPlayer g) = me env) then black else white;
     chess := defaultPosition;
     lastMove := None;
     lastUpdateAt := now env;
     ground := None;
     lastMoveCount := 0 |}.

(** [new GameCtrl(game, stream, root)], started from the calls already
    made. *)
Definition new (env : Env) (g : Game) (made : list Effect) : Sigma * Completion unit :=
  (onUpdate env;; emit (SetInterval 100);; emit TrainerSubscribe)
    {| ctrl := fresh env g; trace := made |}.

(** The state of [GameCtrl.open]: the variable [ctrl], unset until the
    first message has built a controller. *)
Record Session := {
  ctrlVar : option GameCtrl;
  calls : list Effect
}.

Definition opened : Session := {| ctrlVar := None; calls := [] |}.

(** The stream handler installed by [GameCtrl.open]. *)
Definition handler (env : Env) (msg : Msg) (s : Session) : Session * Completion unit :=
  match ctrlVar s with
  | Some c =>
      let '(σ, r) := handle env msg {| ctrl := c; trace := calls s |} in
      ({| ctrlVar := Some (ctrl σ); calls := trace σ |}, r)
  | None =>
      match new env (asGame msg) (calls s) with
      | (σ, Normal _) => ({| ctrlVar := Some (ctrl σ); calls := trace σ |}, Normal tt)
      | (σ, Throw e) => ({| ctrlVar := None; calls := trace σ |}, Throw e)
      end
  end.

(** A run of the stream: each message is handed to [handler] in turn;
    an exception thrown for one message ends that call only. *)
Fixpoint deliver (msgs : list (Env * Msg)) (s : Session) : Session :=
  match msgs with
  | [] => s
  | (env, msg) :: rest => deliver rest (handler env msg s).1
  end.

(** The utterances among the calls made. *)
Definition spoken (es : list Effect) : list Utterance :=
  omap (λ e, match e with Speak u => Some u | _ => None end) es.

(** The console messages among the calls made. *)
Definition logged (es : list Effect) : list string :=
  omap (λ e, match e with ConsoleError m _ => Some m | _ => None end) es.

(** The position reached from [p] by handing the tokens to [play] one
    after the other, as [forEach playUci] does, on its own. *)
Fixpoint replay (us : list string) (p : Position) : Position * option Thrown :=
  match us with
  | [] => (p, None)
  | u :: rest =>
      match play (parseUci u) p with
      | (p', None) => replay rest p'
      | (p', Some e) => (p', Some e)
      end
  end.

(** The position [onUpdate] starts the replay from. *)
Definition startPosition (g : Game) : Result Position :=
  match (if bool_decide (initialFen g = "startpos") then Ok defaultSetup
         else parseFen (initialFen g)) with
  | Ok setup => fromSetup setup
  | Err e => Err e
  end.

(** *** The blocks of [onUpdate] and [handle] as functions on the state

    Used to state what a run of the handler leaves behind. *)

(** The assignment [handle] makes before calling [onUpdate], if any. *)
Definition install (msg : Msg) (c : GameCtrl) : option GameCtrl :=
  if bool_decide (msgType msg = Some "gameFull") then Some (set_game (asGame msg) c)
  else if bool_decide (msgType msg = Some "gameState") then Some (set_state (asState msg) c)
  else None.

(** The side [onUpdate] names when it speaks of a list of [n] moves. *)
Definition attributed (n : nat) : Color :=
  if (n mod 2 =? 1)%nat then white else black.

(** What [onUpdate] says for the token list [us] when [seen] moves have
    been announced before. *)
Definition announcement (env : Env) (seen : nat) (us : list string) : list Utterance :=
  if hasSpeech env && (seen <? List.length us)%nat then
    [{| text := colorName (attributed (List.length us)) +:+ " plays "
                +:+ match last us with Some u => uciToAlgebraic u | None => "" end;
        rate := 8;
        pitch := match attributed (List.length us) with white => 11 | black => 9 end;
        volume := 7 |}]
  else [].

(** The block "check if there's a new move to speak". *)
Definition announce (env : Env) (us : list string) (σ : Sigma) : Sigma :=
  {| ctrl := set_lastMoveCount (Nat.max (lastMoveCount (ctrl σ)) (List.length us)) (ctrl σ);
     trace := trace σ ++ (Speak <$> announcement env (lastMoveCount (ctrl σ)) us) |}.

(** The lines of [onUpdate] after the replay. *)
Definition finish (env : Env) (us : list string) (σ : Sigma) : Sigma :=
  let c1 := set_lastUpdateAt (now env)
              (set_lastMove (match last us with
                             | Some u => Some (Js.substr u 0 2, Js.substr u 2 2)
                             | None => None
                             end) (ctrl σ)) in
  {| ctrl := match ground c1 with
             | Some _ => set_ground (Some (chessgroundConfig c1)) c1
             | None => c1
             end;
     trace := trace σ ++ (if bool_decide (turn (chess c1) = pov c1)
                          then match ground c1 with Some _ => [PlayPremove] | None => [] end
                          else []) |}.

(** The side to move in the position the last token of [us] is played on. *)
Definition lastMover (us : list string) (p0 : Position) : option Color :=
  match us with
  | [] => None
  | _ => Some (turn (replay (removelast us) p0).1)
  end.

(** What a message that [handle] takes up leaves behind, field by field:
    [c] is the controller after the assignment [handle] makes first, [p0]
    the position the replay starts from. *)
Record Outcome (env : Env) (σ : Sigma) (c : GameCtrl) (p0 : Position)
       (out : Sigma * Completion unit) : Prop := {
  out_game : game (ctrl out.1) = game c;
  out_pov : pov (ctrl out.1) = pov c;
  out_chess : chess (ctrl out.1) = (replay (tokens (moves (state (game c)))) p0).1;
  out_completion :
    out.2 = match (replay (tokens (moves (state (game c)))) p0).2 with
            | None => Normal tt
            | Some e => Throw e
            end;
  out_count :
    lastMoveCount (ctrl out.1)
    = Nat.max (lastMoveCount c) (List.length (tokens (moves (state (game c)))));
  out_spoken :
    spoken (trace out.1)
    = spoken (trace σ) ++ announcement env (lastMoveCount c) (tokens (moves (state (game c))));
  out_logged : logged (trace out.1) = logged (trace σ)
}.

(** [timeOf(color)]: the clock of a side, [state.wtime] or [state.btime]. *)
Definition timeOf (color : Color) (c : GameCtrl) : Z :=
  match color with
  | white => wtime (state (game c))
  | black => btime (state (game c))
  end.

(** How often a redraw was asked for, and how often a premove was played. *)
Definition redraws (es : list Effect) : nat :=
  List.length (omap (λ e, match e with Redraw => Some e | _ => None end) es).


End Controller.

End Game.

(* ===================================================================== *)
(** ** A concrete rules engine                                            *)
(* ===================================================================== *)

(** One instance of [RulesEngine], small enough to run inside the proof
    assistant: piece placement and side to move, coordinate moves with
    promotion, and a legality test by movement geometry (no castling, no
    en passant, no pins). It keeps the one trait of the library that the
    controller's behaviour rests on: [play] moves whatever stands on the
    origin square and does not consult [isLegal]; on [undefined] it throws
    before touching the position. *)
Module SimpleChess.

Inductive Role := pawn | knight | bishop | rook | queen | king.

#[global] Instance Role_eq_dec : EqDecision Role.
Proof. solve_decision. Defined.

Record Piece := {
  role : Role;
  color : Color
}.

#[global] Instance Piece_eq_dec : EqDecision Piece.
Proof. solve_decision. Defined.

(** Squares are numbered [file + 8 * rank]: [a1] is 0 and [h8] is 63. *)
Definition Square := nat.

Record NormalMove := {
  from : Square;
  to : Square;
  promotion : option Role
}.

Record Chess := {
  board : list (option Piece);
  sideToMove : Color
}.

Definition fileOf (sq : Square) : Z := Z.of_nat (sq mod 8).
Definition rankOf (sq : Square) : Z := Z.of_nat (sq / 8).

Definition pieceAt (b : list (option Piece)) (sq : Square) : option Piece :=
  mjoin (b !! sq).

Definition parseSquare (s : string) : option Square :=
  match s with
  | String f (String r EmptyString) =>
      let file := (Z.of_nat (nat_of_ascii f) - 97)%Z in
      let rank := (Z.of_nat (nat_of_ascii r) - 49)%Z in
      if ((file <? 0) || (8 <=? file) || (rank <? 0) || (8 <=? rank))%Z then None
      else Some (Z.to_nat (file + 8 * rank))
  | _ => None
  end.

Definition makeSquare (sq : Square) : Key :=
  String (ascii_of_nat (97 + sq mod 8)) (String (ascii_of_nat (49 + sq / 8)) EmptyString).

Definition charToRole (c : ascii) : option Role :=
  match c with
  | "p"%char => Some pawn | "n"%char => Some knight | "b"%char => Some bishop
  | "r"%char => Some rook | "q"%char => Some queen | "k"%char => Some king
  | _ => None
  end.

Definition roleToChar (r : Role) : ascii :=
  match r with
  | pawn => "p" | knight => "n" | bishop => "b"
  | rook => "r" | queen => "q" | king => "k"
  end%char.

Definition parseUci (s : string) : option NormalMove :=
  let n := String.length s in
  if (n =? 4)%nat || (n =? 5)%nat then
    match parseSquare (Js.substring s 0 2), parseSquare (Js.substring s 2 4) with
    | Some f, Some t =>
        if (n =? 5)%nat then
          match charToRole (default "?"%char (String.get 4 s)) with
          | Some r => Some {| from := f; to := t; promotion := Some r |}
          | None => None
          end
        else Some {| from := f; to := t; promotion := None |}
    | _, _ => None
    end
  else None.

(** *** Setting a position up *)

Definition emptyBoard : list (option Piece) := replicate 64 None.

Definition charToPiece (c : ascii) : option Piece :=
  let n := nat_of_ascii c in
  if (65 <=? n)%nat && (n <=? 90)%nat then
    (λ r, {| role := r; color := white |}) <$> charToRole (ascii_of_nat (n + 32))
  else (λ r, {| role := r; color := black |}) <$> charToRole c.

Definition pieceToChar (pc : Piece) : ascii :=
  match color pc with
  | white => Js.upperAscii (roleToChar (role pc))
  | black => roleToChar (role pc)
  end.

Definition digit (c : ascii) : option nat :=
  let n := nat_of_ascii c in
  if (49 <=? n)%nat && (n <=? 56)%nat then Some (n - 48) else None.

(** The placement field of a FEN, read from rank 8 down to rank 1. *)
Fixpoint parseBoardFen (s : string) (rank file : nat) (b : list (option Piece))
  : option (list (option Piece)) :=
  match s with
  | EmptyString => if (rank =? 0)%nat && (file =? 8)%nat then Some b else None
  | String c s' =>
      if Ascii.eqb c "/" then
        match rank with
        | S r => if (file =? 8)%nat then parseBoardFen s' r 0 b else None
        | O => None
        end
      else
        match digit c with
        | Some d =>
            if (file + d <=? 8)%nat then parseBoardFen s' rank (file + d) b else None
        | None =>
            match charToPiece c with
            | Some pc =>
                if (file <? 8)%nat
                then parseBoardFen s' rank (S file) (<[file + 8 * rank := Some pc]> b)
                else None
            | None => None
            end
        end
  end.

Definition parseFen (fen : string) : Result Chess :=
  match filter (λ m, Js.truthy m = true) (Js.split " "%char fen) with
  | [] => Err (FenError "ERR_FEN")
  | placement :: rest =>
      match parseBoardFen placement 7 0 emptyBoard with
      | None => Err (FenError "ERR_BOARD")
      | Some b =>
          match rest with
          | [] => Ok {| board := b; sideToMove := white |}
          | t :: _ =>
              if bool_decide (t = "w") then Ok {| board := b; sideToMove := white |}
              else if bool_decide (t = "b") then Ok {| board := b; sideToMove := black |}
              else Err (FenError "ERR_TURN")
          end
      end
  end.

Definition initialFen : string := "rnbqkbnr/pppppppp/8/8/8/8/PPPPPPPP/RNBQKBNR w KQkq - 0 1".

Definition backRank (c : Color) : list (option Piece) :=
  (λ r, Some {| role := r; color := c |}) <$> [rook; knight; bishop; queen; king; bishop; knight; rook].

Definition defaultSetup : Chess :=
  {| board := backRank white ++ replicate 8 (Some {| role := pawn; color := white |})
                ++ replicate 32 None
                ++ replicate 8 (Some {| role := pawn; color := black |}) ++ backRank black;
     sideToMove := white |}.

(** A position needs one king of each colour. *)
Definition fromSetup (s : Chess) : Result Chess :=
  let kings c := List.length (filter (λ o, o = Some {| role := king; color := c |}) (board s)) in
  if (kings white =? 1)%nat && (kings black =? 1)%nat && (List.length (board s) =? 64)%nat
  then Ok s else Err (PositionError "ERR_KINGS").

(** *** Playing a move *)

Definition play (m : option NormalMove) (p : Chess) : Chess * option Thrown :=
  match m with
  | None => (p, Some (TypeError "Cannot use 'in' operator to search for 'role' in undefined"))
  | Some mv =>
      let next := opposite (sideToMove p) in
      match pieceAt (board p) (from mv) with
      | None => ({| board := board p; sideToMove := next |}, None)
      | Some pc =>
          let moved := match role pc, promotion mv with
                       | pawn, Some r => {| role := r; color := color pc |}
                       | _, _ => pc
                       end in
          ({| board := <[to mv := Some moved]> (<[from mv := None]> (board p));
              sideToMove := next |}, None)
      end
  end.

(** *** Testing a move *)

(** The squares strictly between two squares of one line are empty;
    [n] bounds the walk. *)
Fixpoint clearPath (b : list (option Piece)) (f r df dr : Z) (tf tr : Z) (n : nat) : bool :=
  match n with
  | O => false
  | S k =>
      let f' := (f + df)%Z in
      let r' := (r + dr)%Z in
      if ((f' =? tf) && (r' =? tr))%Z then true
      else match pieceAt b (Z.to_nat (f' + 8 * r')) with
           | Some _ => false
           | None => clearPath b f' r' df dr tf tr k
           end
  end.

(** Can the piece [pc] standing on [a] go to [z] by the way it moves? *)
Definition reaches (b : list (option Piece)) (pc : Piece) (a z : Square) : bool :=
  let '(fa, ra, fz, rz) := (fileOf a, rankOf a, fileOf z, rankOf z) in
  let df := (fz - fa)%Z in
  let dr := (rz - ra)%Z in
  let line := clearPath b fa ra (Z.sgn df) (Z.sgn dr) fz rz 7 in
  let straight := (((df =? 0) || (dr =? 0)) && negb ((df =? 0) && (dr =? 0)))%Z in
  let diagonal := ((Z.abs df =? Z.abs dr) && negb (df =? 0))%Z in
  match role pc with
  | knight => (((Z.abs df =? 1) && (Z.abs dr =? 2)) || ((Z.abs df =? 2) && (Z.abs dr =? 1)))%Z
  | king => ((Z.max (Z.abs df) (Z.abs dr)) =? 1)%Z
  | rook => straight && line
  | bishop => diagonal && line
  | queen => (straight || diagonal) && line
  | pawn =>
      let fwd := match color pc with white => 1%Z | black => (-1)%Z end in
      let home := match color pc with white => 1%Z | black => 6%Z end in
      match pieceAt b z with
      | Some _ => ((Z.abs df =? 1) && (dr =? fwd))%Z
      | None =>
          ((df =? 0) && ((dr =? fwd)
                         || ((dr =? 2 * fwd) && (ra =? home)
                             && bool_decide (pieceAt b (Z.to_nat (fa + 8 * (ra + fwd))) = None))))%Z
      end
  end.

Definition isLegal (p : Chess) (m : NormalMove) : bool :=
  match pieceAt (board p) (from m) with
  | None => false
  | Some pc =>
      bool_decide (color pc = sideToMove p)
      && (from m <? 64)%nat && (to m <? 64)%nat
      && match pieceAt (board p) (to m) with
         | Some target => negb (bool_decide (color target = color pc))
         | None => true
         end
      && reaches (board p) pc (from m) (to m)
  end.

Definition squares : list Square := seq 0 64.

(** Is the king of the side to move attacked? *)
Definition isCheck (p : Chess) : bool :=
  let b := board p in
  let ownKing := Some {| role := king; color := sideToMove p |} in
  existsb (λ k, bool_decide (pieceAt b k = ownKing)
                && existsb (λ a, match pieceAt b a with
                                 | Some pc => bool_decide (color pc = opposite (sideToMove p))
                                              && reaches b pc a k
                                 | None => false
                                 end) squares) squares.

(** *** Writing a position out *)

Definition flush (run : nat) : string :=
  match run with
  | O => EmptyString
  | _ => String (ascii_of_nat (48 + run)) EmptyString
  end.

Fixpoint rankFen (cells : list (option Piece)) (run : nat) : string :=
  match cells with
  | [] => flush run
  | None :: rest => rankFen rest (S run)
  | Some pc :: rest => flush run +:+ String (pieceToChar pc) (rankFen rest 0)
  end.

Definition makeFen (p : Chess) : string :=
  let ranks := (λ r, rankFen (take 8 (drop (8 * r) (board p))) 0) <$> [7; 6; 5; 4; 3; 2; 1; 0] in
  match ranks with
  | [] => EmptyString
  | r :: rs => foldl (λ acc x, acc +:+ "/" +:+ x) r rs
  end +:+ " " +:+ match sideToMove p with white => "w" | black => "b" end.

Definition chessgroundDests (p : Chess) : list (Key * list Key) :=
  omap (λ a, match filter (λ z, isLegal p {| from := a; to := z; promotion := None |} = true) squares with
             | [] => None
             | zs => Some (makeSquare a, makeSquare <$> zs)
             end) squares.

#[export] Instance engine : RulesEngine :=
  Build_RulesEngine
    Chess Chess NormalMove (list (Key * list Key))
    defaultSetup defaultSetup
    parseFen fromSetup parseUci play isLegal
    sideToMove isCheck (λ p, p) makeFen chessgroundDests.

End SimpleChess.

(* ===================================================================== *)
(** ** A game to run the controller on                                    *)
(* ===================================================================== *)

Module Demo.
Import Game.

Definition env : Env :=
  {| now := 1700000000000; hasSpeech := true; me := Some "alice" |}.

(** The same surroundings in a window without speech synthesis. *)
Definition mute : Env :=
  {| now := 1700000000000; hasSpeech := false; me := Some "alice" |}.

Definition stateOf (ms : string) : GameState :=
  {| moves := ms; status := "started"; wtime := 300000; btime := 300000 |}.

Definition gameOf (fen ms : string) : Game :=
  {| gameId := "abc123";
     initialFen := fen;
     whitePlayer := {| playerId := Some "alice"; playerName := Some "Alice" |};
     blackPlayer := {| playerId := Some "bob"; playerName := Some "Bob" |};
     state := stateOf ms |}.

Definition message (type fen ms : string) : Msg :=
  {| msgType := Some type; asGame := gameOf fen ms; asState := stateOf ms |}.

Definition gameFull (ms : string) : Msg := message "gameFull" "startpos" ms.
Definition gameState (ms : string) : Msg := message "gameState" "startpos" ms.

(** The standard placement with black to move. *)
Definition blackFirst : string := "rnbqkbnr/pppppppp/8/8/8/8/PPPPPPPP/RNBQKBNR b KQkq - 0 1".

(** The session after the stream has delivered its first message, a
    full-state message with the history [ms]. *)
Definition openedWith (ms : string) : Session (E := SimpleChess.engine) :=
  (handler env (gameFull ms) opened).1.

(** The controller of a session, run on its own. *)
Definition sigmaOf (s : Session (E := SimpleChess.engine)) : option Sigma :=
  (λ c, {| ctrl := c; trace := calls s |}) <$> ctrlVar s.

(** The controller and its calls right after [new GameCtrl] on a game
    from the standard start with the history [ms]. *)
Definition afterOpen (ms : string) : Sigma (E := SimpleChess.engine) :=
  (new env (gameOf "startpos" ms) []).1.

(** The position [blackFirst] describes. *)
Definition blackStart : SimpleChess.Chess :=
  {| SimpleChess.board := SimpleChess.board SimpleChess.defaultSetup;
     SimpleChess.sideToMove := black |}.

(** The same with a board attached, as the insert hook of view/board.ts
    does it: [setGround(Chessground(elm, chessgroundConfig()))]. *)
Definition attached (ms : string) : Sigma (E := SimpleChess.engine) :=
  (setGround (chessgroundConfig (ctrl (afterOpen ms))) (afterOpen ms)).1.

Definition g1 : SimpleChess.Square := 6.
Definition g3 : SimpleChess.Square := 22.

End Demo.

(* ===================================================================== *)
(** ** view/game.ts: the move list                                        *)
(* ===================================================================== *)

Module ViewGame.

(** Simple UCI to algebraic conversion: the move list's own helper, which
    leaves the promotion out. *)
Definition uciToAlgebraic (uci : string) : string :=
  if negb (Js.truthy uci) || (Js.length uci <? 4)%nat then ""
  else Js.substring uci 0 2 +:+ "-" +:+ Js.substring uci 2 4.

(** One [div.move-pair]: the number and the two spans' texts; the black
    span is left out when its text is empty. *)
Record MovePair := {
  moveNumber : nat;
  whiteMove : string;
  blackMove : string
}.

(** [moves[i] ? uciToAlgebraic(moves[i]) : ''] *)
Definition shown (m : option string) : string :=
  match m with
  | Some u => if Js.truthy u then uciToAlgebraic u else ""
  | None => ""
  end.

(** The body of the loop, for one [i]. *)
Definition movePair (moves : list string) (i : nat) : MovePair :=
  {| moveNumber := i / 2 + 1;
     whiteMove := shown (moves !! i);
     blackMove := shown (moves !! (i + 1)) |}.

(** The values [i] takes in [for (let i = 0; i < moves.length; i += 2)]. *)
Definition steps (n : nat) : list nat := (λ k, 2 * k) <$> seq 0 ((n + 1) / 2).

Definition moveHistory (moves : list string) : list MovePair :=
  movePair moves <$> steps (List.length moves).

(** [xs.slice(-n)]: the last [n] elements, or all of them. *)
Definition sliceLast {A} (n : nat) (xs : list A) : list A :=
  drop (List.length xs - n) xs.

(** The rows of [renderMoveList] for a moves string: the last 8 move pairs. *)
Definition renderMoveList (moves : string) : list MovePair :=
  sliceLast 8 (moveHistory (Game.tokens moves)).

End ViewGame.

(* ===================================================================== *)
(** ** view/board.ts: the last move beside a player                       *)
(* ===================================================================== *)

Module ViewBoard.

(** The file's own copy of the helper of util.ts. *)
Definition uciToAlgebraic (uci : string) : string :=
  if negb (Js.truthy uci) || (Js.length uci <? 4)%nat then ""
  else
    let from := Js.substring uci 0 2 in
    let to := Js.substring uci 2 4 in
    let promotion := if (4 <? Js.length uci)%nat then Js.substringFrom uci 4 else "" in
    let move := from +:+ "-" +:+ to in
    if Js.truthy promotion then move +:+ "=" +:+ Js.toUpperCase promotion
    else move.

(** The loop [for (let i = moves.length - 1; i >= 0; i--)], entered with
    [k = i + 1]; an index outside the array reads [undefined], which the
    helper turns into the empty string. *)
Fixpoint scan (moves : list string) (isWhite : bool) (k : nat) : option string :=
  match k with
  | O => None
  | S i =>
      let isWhiteMove := ((i + 1) mod 2 =? 1)%nat in
      if Bool.eqb isWhiteMove isWhite
      then Some (match moves !! i with Some u => uciToAlgebraic u | None => "" end)
      else scan moves isWhite i
  end.

(** Helper function to get the last move for a specific color; [None]
    stands for [null]. *)
Definition getLastMoveForColor (moves : list string) (color : Color) : option string :=
  if (List.length moves =? 0)%nat then None
  else scan moves (bool_decide (color = white)) (List.length moves).

End ViewBoard.

(* ===================================================================== *)
(** ** The piece-set manager                                              *)
(* ===================================================================== *)

(** The class [PieceSetManager], the trainer's predecessor; the page's
    board element and the subscriber calls are kept beside it, as for the
    trainer. *)
Module PieceSets.

Inductive PieceSet := cburnett | transp.

#[global] Instance PieceSet_eq_dec : EqDecision PieceSet.
Proof. solve_decision. Defined.

Definition pieceSetName (p : PieceSet) : string :=
  match p with cburnett => "cburnett" | transp => "transp" end.

Definition Callback := nat.

Record PieceSetManager := {
  currentPieceSet : PieceSet;
  callbacks : list Callback
}.

Record World := {
  manager : PieceSetManager;
  boardElement : option (gset string);
  called : list (Callback * PieceSet)
}.

Definition initial : PieceSetManager :=
  {| currentPieceSet := cburnett; callbacks := [] |}.

Definition getCurrentPieceSet (w : World) : PieceSet := currentPieceSet (manager w).

Definition notifyListeners (w : World) : World :=
  {| manager := manager w; boardElement := boardElement w;
     called := called w ++ map (λ cb, (cb, currentPieceSet (manager w))) (callbacks (manager w)) |}.

Definition updateBoardPieceSet (w : World) : World :=
  match boardElement w with
  | None => w
  | Some classList =>
      {| manager := manager w;
         boardElement := Some ((classList ∖ {[ "piece-set-cburnett"; "piece-set-transp" ]})
                               ∪ {[ "piece-set-" +:+ pieceSetName (currentPieceSet (manager w)) ]});
         called := called w |}
  end.

Definition setPieceSet (pieceSet : PieceSet) (w : World) : World :=
  if decide (currentPieceSet (manager w) = pieceSet) then w
  else updateBoardPieceSet (notifyListeners
         {| manager := {| currentPieceSet := pieceSet; callbacks := callbacks (manager w) |};
            boardElement := boardElement w; called := called w |}).

Definition togglePieceSet (w : World) : World :=
  let newPieceSet := if decide (currentPieceSet (manager w) = cburnett) then transp else cburnett in
  setPieceSet newPieceSet w.

Definition subscribe (cb : Callback) (w : World) : World :=
  {| manager := {| currentPieceSet := currentPieceSet (manager w);
                   callbacks := callbacks (manager w) ++ [cb] |};
     boardElement := boardElement w; called := called w |}.

Definition unsubscribe (cb : Callback) (w : World) : World :=
  {| manager := {| currentPieceSet := currentPieceSet (manager w);
                   callbacks := filter (λ c, c ≠ cb) (callbacks (manager w)) |};
     boardElement := boardElement w; called := called w |}.

(** Initialize the piece set on the board. *)
Definition initializeBoardPieceSet (w : World) : World := updateBoardPieceSet w.

(** The manager as the module creates it, on a page with a bare board
    element and two subscribers. *)
Definition demoWorld : World :=
  {| manager := {| currentPieceSet := cburnett; callbacks := [1; 2] |};
     boardElement := Some {[ "cg-wrap" ]};
     called := [] |}.

End PieceSets.

(* ===================================================================== *)
(** ** Vocabulary of the specification                                    *)
(* ===================================================================== *)

Module Spec.

(** A move token as the specification describes it: origin square,
    destination square and an optional promotion marker, 4 to 5
    characters in all. *)
Definition isFile (c : ascii) : bool :=
  let n := nat_of_ascii c in (97 <=? n)%nat && (n <=? 104)%nat.

Definition isRank (c : ascii) : bool :=
  let n := nat_of_ascii c in (49 <=? n)%nat && (n <=? 56)%nat.

Definition isPromotion (c : ascii) : bool :=
  bool_decide (c ∈ ["q"; "r"; "b"; "n"]%char).

Definition wellFormedToken (u : string) : bool :=
  match u with
  | String f1 (String r1 (String f2 (String r2 rest))) =>
      isFile f1 && isRank r1 && isFile f2 && isRank r2
      && match rest with
         | EmptyString => true
         | String p EmptyString => isPromotion p
         | _ => false
         end
  | _ => false
  end.

End Spec.

(* ===================================================================== *)
(** ** Theorems: the notation helper                                      *)
(* ===================================================================== *)

Module UtilFacts.

Lemma uciToAlgebraic_empty_iff (u : string) :
  Util.uciToAlgebraic u = "" ↔ (Js.length u < 4)%nat.
Proof.
  unfold Util.uciToAlgebraic, Js.length.
  destruct u as [|a [|b [|c [|d rest]]]]; simpl; try (split; [lia | reflexivity]).
  split; [|lia]. destruct (Js.truthy _); discriminate.
Qed.

Lemma controller_copy_agrees (u : string) :
  Game.uciToAlgebraic u = Util.uciToAlgebraic u.
Proof. reflexivity. Qed.

(** C7, as the specification words it, fails: a malformed token of four
    characters or more is not answered with the empty string. *)
Lemma uciToAlgebraic_malformed_not_empty :
  Spec.wellFormedToken "e2e4e7e5" = false
  ∧ Util.uciToAlgebraic "e2e4e7e5" = "e2-e4=E7E5"
  ∧ Spec.wellFormedToken "zzzz" = false
  ∧ Util.uciToAlgebraic "zzzz" = "zz-zz"
  ∧ ¬ (∀ u, Spec.wellFormedToken u = false → Util.uciToAlgebraic u = "").
Proof.
  repeat split; try reflexivity.
  intros H. specialize (H "zzzz" eq_refl). discriminate H.
Qed.

(** C7 (amended): the display conversion is a total function with
    [uciToAlgebraic "e2e4" = "e2-e4"], [uciToAlgebraic "e7e8q" = "e7-e8=Q"]
    and [uciToAlgebraic "" = ""]; it answers the empty string exactly for
    tokens shorter than four characters. For every longer token,
    well-formed or not, the answer begins with the first two characters, a
    dash and the next two; and when the characters after the fourth are
    ASCII, it is exactly that, followed, if there are any, by [=] and those
    characters with a to z in upper case. The controller's private copy
    computes the same function. *)
Theorem uciToAlgebraic_display_form :
  Util.uciToAlgebraic "e2e4" = "e2-e4"
  ∧ Util.uciToAlgebraic "e7e8q" = "e7-e8=Q"
  ∧ Util.uciToAlgebraic "" = ""
  ∧ (∀ u, Util.uciToAlgebraic u = "" ↔ (Js.length u < 4)%nat)
  ∧ (∀ a b c d rest,
       Js.substring (Util.uciToAlgebraic (String a (String b (String c (String d rest))))) 0 5
       = String a (String b (String "-" (String c (String d EmptyString)))))
  ∧ (∀ a b c d rest,
       Js.isAscii rest = true →
       Util.uciToAlgebraic (String a (String b (String c (String d rest))))
       = String a (String b (String "-" (String c (String d
           (match rest with
            | EmptyString => EmptyString
            | _ => String "=" (Js.toUpperCase rest)
            end))))))
  ∧ (∀ u, Game.uciToAlgebraic u = Util.uciToAlgebraic u).
Proof.
  split; [reflexivity|]. split; [reflexivity|]. split; [reflexivity|].
  split; [exact uciToAlgebraic_empty_iff|].
  assert (Hsub : ∀ s, String.substring 0 (String.length s) s = s).
  { induction s as [|x s IH]; simpl; [reflexivity | by rewrite IH]. }
  assert (Hform : ∀ a b c d rest,
            Util.uciToAlgebraic (String a (String b (String c (String d rest))))
            = String a (String b (String "-" (String c (String d
                (match rest with
                 | EmptyString => EmptyString
                 | _ => String "=" (Js.toUpperCase rest)
                 end)))))).
  { intros a b c d rest.
    unfold Util.uciToAlgebraic, Js.length, Js.substringFrom, Js.substring.
    cbn [Js.truthy negb orb String.length Nat.ltb Nat.leb].
    destruct rest as [|p rest']; [reflexivity|].
    cbn [String.length Nat.ltb Nat.leb Nat.sub String.substring String.append].
    rewrite Hsub. reflexivity. }
  split; [|split; [|exact controller_copy_agrees]].
  - intros a b c d rest. rewrite Hform. by destruct rest.
  - intros a b c d rest _. apply Hform.
Qed.

Lemma uciToAlgebraic_display_form_witness :
  Util.uciToAlgebraic "e7e8q" = "e7-e8=Q" ∧ Util.uciToAlgebraic "zzzz" = "zz-zz".
Proof.
  destruct uciToAlgebraic_display_form as (_ & _ & _ & _ & _ & Hform & _).
  split.
  - apply (Hform "e"%char "7"%char "e"%char "8"%char "q"). reflexivity.
  - apply (Hform "z"%char "z"%char "z"%char "z"%char ""). reflexivity.
Defined.

End UtilFacts.

(* ===================================================================== *)
(** ** Theorems: the visualization trainer                                *)
(* ===================================================================== *)

Module TrainerFacts.
Import Trainer.

Lemma sameSubscription_refl w : sameSubscription w w.
Proof. by split. Qed.

Lemma sameSubscription_trans w1 w2 w3 :
  sameSubscription w1 w2 → sameSubscription w2 w3 → sameSubscription w1 w3.
Proof. intros [] []. split; congruence. Qed.

Lemma notified_app es es' : notified (es ++ es') = notified es ++ notified es'.
Proof. unfold notified. apply omap_app. Qed.

Lemma clearMemoryTimer_same w : sameSubscription w (clearMemoryTimer w).
Proof.
  unfold clearMemoryTimer. destruct (memoryTimer (trainer w)); [|apply sameSubscription_refl].
  split; simpl; try reflexivity. rewrite notified_app. simpl. by rewrite app_nil_r.
Qed.

Lemma startMemoryTimer_same w : sameSubscription w (startMemoryTimer w).
Proof.
  unfold startMemoryTimer. destruct (truthyTime _); [|apply sameSubscription_refl].
  split; simpl; try reflexivity. rewrite notified_app. simpl. by rewrite app_nil_r.
Qed.

Lemma updateBoardMode_same sub w : sameSubscription w (updateBoardMode sub w).
Proof.
  unfold updateBoardMode. destruct (boardElement w); [|apply sameSubscription_refl].
  by split.
Qed.

Lemma notified_map_Notified (cbs : list Callback) (s : VisualizationSettings) :
  notified (map (λ cb, Notified cb s) cbs) = map (λ cb, (cb, s)) cbs.
Proof. induction cbs as [|cb cbs IH]; simpl; [reflexivity | by rewrite <- IH]. Qed.

Lemma notifyListeners_calls w :
  currentMode (trainer (notifyListeners w)) = currentMode (trainer w)
  ∧ settings (trainer (notifyListeners w)) = settings (trainer w)
  ∧ callbacks (trainer (notifyListeners w)) = callbacks (trainer w)
  ∧ notified (events (notifyListeners w))
    = notified (events w) ++ map (λ cb, (cb, settings (trainer w))) (callbacks (trainer w)).
Proof.
  unfold notifyListeners, emit, getSettings. simpl. repeat split.
  by rewrite notified_app, notified_map_Notified.
Qed.

Lemma afterAssign_calls m w1 :
  currentMode (trainer (afterAssign m w1)) = currentMode (trainer w1)
  ∧ settings (trainer (afterAssign m w1)) = settings (trainer w1)
  ∧ callbacks (trainer (afterAssign m w1)) = callbacks (trainer w1)
  ∧ notified (events (afterAssign m w1))
    = notified (events w1) ++ map (λ cb, (cb, settings (trainer w1))) (callbacks (trainer w1)).
Proof.
  pose proof (clearMemoryTimer_same w1) as [c1 c2 c3 c4].
  pose proof (notifyListeners_calls (clearMemoryTimer w1)) as (n1 & n2 & n3 & n4).
  pose proof (updateBoardMode_same None (notifyListeners (clearMemoryTimer w1))) as [u1 u2 u3 u4].
  assert (Hlast : sameSubscription
            (updateBoardMode None (notifyListeners (clearMemoryTimer w1)))
            (afterAssign m w1)).
  { unfold afterAssign. cbv zeta. destruct (_ && _).
    - apply startMemoryTimer_same.
    - apply sameSubscription_refl. }
  destruct Hlast as [l1 l2 l3 l4].
  repeat split; try congruence.
  rewrite l4, u4, n4, c4, c2, c3. reflexivity.
Qed.

Lemma setMode_changed m w :
  currentMode (trainer w) ≠ m →
  setMode m w
  = afterAssign m (withTrainer w
      {| currentMode := m;
         settings := {| mode := m; showMoves := showMoves (settings (trainer w));
                        showTargets := showTargets (settings (trainer w));
                        memoryTime := memoryTime (settings (trainer w)) |};
         callbacks := callbacks (trainer w); memoryTimer := memoryTimer (trainer w) |}).
Proof.
  intros Hne. unfold setMode. cbv zeta.
  destruct (decide (currentMode (trainer w) = m)); [contradiction | reflexivity].
Qed.

Lemma setMode_currentMode m w : currentMode (trainer (setMode m w)) = m.
Proof.
  destruct (decide (currentMode (trainer w) = m)) as [Heq | Hne].
  - unfold setMode. cbv zeta. by destruct (decide _).
  - rewrite (setMode_changed _ _ Hne).
    by destruct (afterAssign_calls m (withTrainer w
      {| currentMode := m;
         settings := {| mode := m; showMoves := showMoves (settings (trainer w));
                        showTargets := showTargets (settings (trainer w));
                        memoryTime := memoryTime (settings (trainer w)) |};
         callbacks := callbacks (trainer w); memoryTimer := memoryTimer (trainer w) |}))
      as (-> & _).
Qed.

(** C9: [setMode] with the current mode changes nothing at all (mode,
    settings, subscriber calls, timer, page); with another mode it sets the
    current mode and the mode of the settings to it, keeps the other
    settings and the subscriber list, and calls each entry of the
    subscriber list once, in order, with the updated settings. *)
Theorem setMode_same_or_notify (m : VisualizationMode) (w : World) :
  (currentMode (trainer w) = m → setMode m w = w)
  ∧ (currentMode (trainer w) ≠ m →
     currentMode (trainer (setMode m w)) = m
     ∧ mode (settings (trainer (setMode m w))) = m
     ∧ showMoves (settings (trainer (setMode m w))) = showMoves (settings (trainer w))
     ∧ showTargets (settings (trainer (setMode m w))) = showTargets (settings (trainer w))
     ∧ memoryTime (settings (trainer (setMode m w))) = memoryTime (settings (trainer w))
     ∧ callbacks (trainer (setMode m w)) = callbacks (trainer w)
     ∧ notified (events (setMode m w))
       = notified (events w)
         ++ map (λ cb, (cb, settings (trainer (setMode m w)))) (callbacks (trainer w))).
Proof.
  split.
  - intros Heq. unfold setMode. cbv zeta. by destruct (decide _).
  - intros Hne. rewrite (setMode_changed _ _ Hne).
    match goal with |- context [afterAssign m ?w1] =>
      destruct (afterAssign_calls m w1) as (a1 & a2 & a3 & a4) end.
    rewrite a1, a2, a3, a4. simpl. repeat split.
Qed.

Lemma setMode_same_or_notify_witness :
  setMode standard demoWorld = demoWorld
  ∧ notified (events (setMode memory demoWorld))
    = [(1, {| mode := memory; showMoves := true; showTargets := true;
              memoryTime := Some 5000%Z |});
       (2, {| mode := memory; showMoves := true; showTargets := true;
              memoryTime := Some 5000%Z |})].
Proof.
  split.
  - apply (proj1 (setMode_same_or_notify standard demoWorld)). reflexivity.
  - assert (Hne : currentMode (trainer demoWorld) ≠ memory) by discriminate.
    destruct (proj2 (setMode_same_or_notify memory demoWorld) Hne)
      as (_ & Hm & Hsm & Hst & Hmt & _ & Hn).
    rewrite Hn. simpl.
    destruct (settings (trainer (setMode memory demoWorld))) as [m' sm st mt].
    simpl in *. subst. reflexivity.
Defined.

Lemma cycle_index_defined (m : VisualizationMode) :
  modes !! Z.to_nat ((Js.indexOf modes m + 1) mod Z.of_nat (List.length modes)) = Some (successor m).
Proof. destruct m; reflexivity. Qed.

Lemma cycleMode_setMode w : cycleMode w = setMode (successor (currentMode (trainer w))) w.
Proof. unfold cycleMode. cbv zeta. by rewrite cycle_index_defined. Qed.

Lemma cycleTimes_mode n w :
  currentMode (trainer (cycleTimes n w)) = Nat.iter n successor (currentMode (trainer w)).
Proof.
  revert w. induction n as [|n IH]; intros w; [reflexivity|].
  cbn [cycleTimes]. rewrite IH, cycleMode_setMode, setMode_currentMode.
  clear. induction n as [|n IH]; [reflexivity|]. simpl. by rewrite IH.
Qed.

(** C10: [cycleMode] moves the current mode to its successor in the order
    standard, minimal, checkers, monochrome, invisible, memory, blindfold
    and from blindfold back to standard; seven calls in a row bring the
    trainer back to the mode it started from. *)
Theorem cycleMode_successor_and_period (w : World) :
  currentMode (trainer (cycleMode w)) = successor (currentMode (trainer w))
  ∧ modes = [standard; minimal; checkers; monochrome; invisible; memory; blindfold]
  ∧ currentMode (trainer (cycleTimes 7 w)) = currentMode (trainer w).
Proof.
  split; [by rewrite cycleMode_setMode, setMode_currentMode|].
  split; [reflexivity|].
  rewrite cycleTimes_mode. by destruct (currentMode (trainer w)).
Qed.

End TrainerFacts.

(* ===================================================================== *)
(** ** Theorems: the game controller                                      *)
(* ===================================================================== *)

Module GameFacts.
Import Game.

Section Facts.
Context `{E : RulesEngine}.

Lemma sigma_eta (σ : Sigma) : {| ctrl := ctrl σ; trace := trace σ |} = σ.
Proof. by destruct σ. Qed.

Lemma set_chess_same (c : GameCtrl) : set_chess (chess c) c = c.
Proof. by destruct c. Qed.

Lemma forEach_playUci (us : list string) (σ : Sigma) :
  forEach playUci us σ
  = ({| ctrl := set_chess (replay us (chess (ctrl σ))).1 (ctrl σ); trace := trace σ |},
     match (replay us (chess (ctrl σ))).2 with
     | None => Normal tt
     | Some e => Throw e
     end).
Proof.
  revert σ. induction us as [|u us IH]; intros σ.
  - simpl. unfold mret, M_ret. by rewrite set_chess_same, sigma_eta.
  - cbn [forEach replay]. unfold mbind, M_bind, playUci.
    destruct (play (parseUci u) (chess (ctrl σ))) as [p [e|]]; [reflexivity|].
    rewrite IH. reflexivity.
Qed.

Lemma announce_run (env : Env) (us : list string) (σ : Sigma) :
  (if (lastMoveCount (ctrl σ) <? List.length us)%nat then
     speakMove env (match last us with Some u => uciToAlgebraic u | None => "" end)
               (if (List.length us mod 2 =? 1)%nat then white else black);;
     modify (set_lastMoveCount (List.length us))
   else mret tt) σ
  = (announce env us σ, Normal tt).
Proof.
  unfold announce, announcement, attributed, speakMove, mbind, M_bind, mret, M_ret, modify, emit.
  destruct (Nat.ltb_spec (lastMoveCount (ctrl σ)) (List.length us)) as [Hlt | Hge].
  - rewrite andb_true_r. rewrite Nat.max_r by lia.
    destruct (hasSpeech env); simpl; [reflexivity|]. by rewrite app_nil_r.
  - rewrite andb_false_r. simpl. rewrite app_nil_r, Nat.max_l by lia.
    destruct σ as [[] ?]; reflexivity.
Qed.

Lemma finish_run (env : Env) (us : list string) (σ : Sigma) :
  (modify (set_lastMove
             (match last us with
              | Some lastMove => Some (Js.substr lastMove 0 2, Js.substr lastMove 2 2)
              | None => None
              end));;
   modify (set_lastUpdateAt (now env));;
   c ← gets id;
   (match ground c with
    | Some _ => modify (set_ground (Some (chessgroundConfig c)))
    | None => mret tt
    end);;
   if bool_decide (turn (chess c) = pov c) then
     match ground c with
     | Some _ => emit PlayPremove
     | None => mret tt
     end
   else mret tt) σ
  = (finish env us σ, Normal tt).
Proof.
  unfold finish, mbind, M_bind, mret, M_ret, modify, gets, emit. cbn.
  destruct (ground (ctrl σ)); cbn; destruct (bool_decide _); cbn;
    rewrite ?app_nil_r; reflexivity.
Qed.

Lemma onUpdate_run (env : Env) (σ : Sigma) :
  onUpdate env σ
  = match startPosition (game (ctrl σ)) with
    | Err e => (σ, Throw e)
    | Ok p0 =>
        let us := tokens (moves (state (game (ctrl σ)))) in
        let σ1 := announce env us {| ctrl := set_chess p0 (ctrl σ); trace := trace σ |} in
        let σ2 := {| ctrl := set_chess (replay us p0).1 (ctrl σ1); trace := trace σ1 |} in
        match (replay us p0).2 with
        | Some e => (σ2, Throw e)
        | None => (finish env us σ2, Normal tt)
        end
    end.
Proof.
  unfold onUpdate, startPosition.
  unfold mbind at 1. unfold M_bind at 1. unfold gets at 1. cbn beta iota.
  unfold mbind at 1. unfold M_bind at 1.
  set (setupR := if bool_decide (initialFen (game (ctrl σ)) = "startpos") then Ok defaultSetup else parseFen (initialFen (game (ctrl σ)))).
  assert (Hs : (if bool_decide (initialFen (game (ctrl σ)) = "startpos") then mret defaultSetup
               else unwrap (parseFen (initialFen (game (ctrl σ))))) σ
               = match setupR with Ok a => (σ, Normal a) | Err e => (σ, Throw e) end).
  { unfold setupR. destruct (bool_decide _); [reflexivity|]. by destruct (parseFen _). }
  rewrite Hs. clear Hs. destruct setupR as [setup|e]; [|reflexivity].
  unfold mbind at 1. unfold M_bind at 1.
  destruct (fromSetup setup) as [p0|e]; [|reflexivity].
  cbn [unwrap]. unfold mret at 1, M_ret at 1.
  unfold mbind at 1. unfold M_bind at 1. unfold modify at 1.
  unfold mbind at 1. unfold M_bind at 1. unfold gets at 1. cbn [ctrl trace].
  set (us := tokens (moves (state (game (ctrl σ))))).
  set (σ0 := {| ctrl := set_chess p0 (ctrl σ); trace := trace σ |}).
  unfold mbind at 1. unfold M_bind at 1.
  pose proof (announce_run env us σ0) as Ha. cbn [ctrl σ0] in Ha. rewrite Ha. clear Ha.
  cbv zeta.
  unfold mbind at 1. unfold M_bind at 1.
  rewrite forEach_playUci.
  change (chess (ctrl (announce env us σ0))) with p0.
  destruct (replay us p0) as [p [e|]]; cbn [fst snd]; [reflexivity|].
  apply finish_run.
Qed.

Lemma handle_run (env : Env) (msg : Msg) (σ : Sigma) :
  handle env msg σ
  = match install msg (ctrl σ) with
    | None =>
        ({| ctrl := ctrl σ;
            trace := trace σ ++ [ConsoleError ("Unknown message type: "
                                               +:+ default "undefined" (msgType msg)) msg] |},
         Normal tt)
    | Some c =>
        match onUpdate env {| ctrl := c; trace := trace σ |} with
        | (σ', Normal _) => ({| ctrl := ctrl σ'; trace := trace σ' ++ [Redraw] |}, Normal tt)
        | (σ', Throw e) => (σ', Throw e)
        end
    end.
Proof.
  unfold handle, install.
  destruct (bool_decide (msgType msg = Some "gameFull"));
    [|destruct (bool_decide (msgType msg = Some "gameState"))];
    try reflexivity;
    unfold mbind, M_bind, modify at 1; cbn [ctrl trace];
    destruct (onUpdate env _) as [σ' [[]|e]]; reflexivity.
Qed.

Lemma spoken_app es es' : spoken (es ++ es') = spoken es ++ spoken es'.
Proof. apply omap_app. Qed.

Lemma logged_app es es' : logged (es ++ es') = logged es ++ logged es'.
Proof. apply omap_app. Qed.

Lemma spoken_Speak us : spoken (Speak <$> us) = us.
Proof. induction us as [|u us IH]; [reflexivity|]. cbn. f_equal. exact IH. Qed.

Lemma logged_Speak us : logged (Speak <$> us) = [].
Proof. induction us as [|u us IH]; [reflexivity | exact IH]. Qed.

Lemma finish_frame env us σ :
  game (ctrl (finish env us σ)) = game (ctrl σ)
  ∧ pov (ctrl (finish env us σ)) = pov (ctrl σ)
  ∧ chess (ctrl (finish env us σ)) = chess (ctrl σ)
  ∧ lastMoveCount (ctrl (finish env us σ)) = lastMoveCount (ctrl σ)
  ∧ spoken (trace (finish env us σ)) = spoken (trace σ)
  ∧ logged (trace (finish env us σ)) = logged (trace σ).
Proof.
  unfold finish. cbn. destruct (ground (ctrl σ)); cbn; destruct (bool_decide _); cbn;
    rewrite ?spoken_app, ?logged_app, ?app_nil_r; cbn; rewrite ?app_nil_r; repeat split.
Qed.

Lemma announce_frame env us σ :
  game (ctrl (announce env us σ)) = game (ctrl σ)
  ∧ pov (ctrl (announce env us σ)) = pov (ctrl σ)
  ∧ chess (ctrl (announce env us σ)) = chess (ctrl σ)
  ∧ lastMoveCount (ctrl (announce env us σ))
    = Nat.max (lastMoveCount (ctrl σ)) (List.length us)
  ∧ spoken (trace (announce env us σ))
    = spoken (trace σ) ++ announcement env (lastMoveCount (ctrl σ)) us
  ∧ logged (trace (announce env us σ)) = logged (trace σ).
Proof.
  unfold announce. cbn [ctrl trace].
  rewrite spoken_app, logged_app, spoken_Speak, logged_Speak, app_nil_r.
  repeat split.
Qed.

Lemma onUpdate_outcome (env : Env) (c : GameCtrl) (made : list Effect) (p0 : Position) :
  startPosition (game c) = Ok p0 →
  Outcome env {| ctrl := c; trace := made |} c p0 (onUpdate env {| ctrl := c; trace := made |}).
Proof.
  intros Hp. rewrite onUpdate_run. cbn [ctrl trace]. rewrite Hp. cbv zeta.
  set (us := tokens (moves (state (game c)))).
  destruct (announce_frame env us {| ctrl := set_chess p0 c; trace := made |})
    as (a1 & a2 & a3 & a4 & a5 & a6).
  cbn [ctrl trace] in *.
  destruct (replay us p0) as [p [e|]] eqn:Hr; cbn [fst snd].
  - split; cbn [fst snd ctrl trace]; fold us; rewrite ?Hr; try assumption; reflexivity.
  - match goal with |- context [finish env us ?s] =>
      destruct (finish_frame env us s) as (f1 & f2 & f3 & f4 & f5 & f6) end.
    cbn [ctrl trace] in *.
    split; cbn [fst snd]; fold us; rewrite ?f1, ?f2, ?f3, ?f4, ?f5, ?f6, ?Hr;
      try assumption; reflexivity.
Qed.

Lemma handle_outcome (env : Env) (msg : Msg) (σ : Sigma) (c : GameCtrl) (p0 : Position) :
  install msg (ctrl σ) = Some c →
  startPosition (game c) = Ok p0 →
  Outcome env σ c p0 (handle env msg σ).
Proof.
  intros Hi Hp. rewrite handle_run, Hi.
  destruct (onUpdate_outcome env c (trace σ) p0 Hp) as [o1 o2 o3 o4 o5 o6 o7].
  destruct (onUpdate env _) as [σ' [[]|e]]; cbn [fst snd] in *.
  - split; cbn [fst snd ctrl trace]; try assumption.
    + rewrite spoken_app, o6. cbn. by rewrite app_nil_r.
    + rewrite logged_app, o7. cbn. by rewrite app_nil_r.
  - split; assumption.
Qed.

Lemma handle_bad_start (env : Env) (msg : Msg) (σ : Sigma) (c : GameCtrl) (e : Thrown) :
  install msg (ctrl σ) = Some c →
  startPosition (game c) = Err e →
  handle env msg σ = ({| ctrl := c; trace := trace σ |}, Throw e).
Proof.
  intros Hi Hp. rewrite handle_run, Hi, onUpdate_run. cbn [ctrl trace]. by rewrite Hp.
Qed.

Lemma replay_app (vs ws : list string) (p : Position) :
  replay (vs ++ ws) p
  = match replay vs p with
    | (p', None) => replay ws p'
    | (p', Some e) => (p', Some e)
    end.
Proof.
  revert p. induction vs as [|v vs IH]; intros p; [reflexivity|].
  cbn [app replay]. destruct (play (parseUci v) p) as [p' [e|]]; [reflexivity | apply IH].
Qed.


Lemma install_frame (msg : Msg) (c c' : GameCtrl) :
  install msg c = Some c' →
  pov c' = pov c ∧ chess c' = chess c ∧ lastMoveCount c' = lastMoveCount c
  ∧ initialFen (game c') = (if bool_decide (msgType msg = Some "gameFull")
                            then initialFen (asGame msg) else initialFen (game c))
  ∧ state (game c') = (if bool_decide (msgType msg = Some "gameFull")
                       then state (asGame msg) else asState msg).
Proof.
  unfold install. destruct (bool_decide (msgType msg = Some "gameFull"));
    [|destruct (bool_decide (msgType msg = Some "gameState"))];
    intros [= <-]; repeat split.
Qed.

Lemma startPosition_initialFen (g g' : Game) :
  initialFen g = initialFen g' → startPosition g = startPosition g'.
Proof. unfold startPosition. by intros ->. Qed.

Lemma handle_pov (env : Env) (msg : Msg) (σ : Sigma) :
  pov (ctrl (handle env msg σ).1) = pov (ctrl σ).
Proof.
  destruct (install msg (ctrl σ)) as [c|] eqn:Hi.
  - destruct (install_frame _ _ _ Hi) as (Hp & _).
    destruct (startPosition (game c)) as [p0|e] eqn:Hs.
    + rewrite (out_pov _ _ _ _ _ (handle_outcome env msg σ c p0 Hi Hs)). exact Hp.
    + rewrite (handle_bad_start env msg σ c e Hi Hs). exact Hp.
  - rewrite handle_run, Hi. reflexivity.
Qed.

Lemma handle_count (env : Env) (msg : Msg) (σ : Sigma) :
  (lastMoveCount (ctrl σ) ≤ lastMoveCount (ctrl (handle env msg σ).1))%nat.
Proof.
  destruct (install msg (ctrl σ)) as [c|] eqn:Hi.
  - destruct (install_frame _ _ _ Hi) as (_ & _ & Hn & _).
    destruct (startPosition (game c)) as [p0|e] eqn:Hs.
    + rewrite (out_count _ _ _ _ _ (handle_outcome env msg σ c p0 Hi Hs)). lia.
    + rewrite (handle_bad_start env msg σ c e Hi Hs). cbn. lia.
  - rewrite handle_run, Hi. reflexivity.
Qed.

Lemma new_run (env : Env) (g : Game) (made : list Effect) :
  new env g made
  = match onUpdate env {| ctrl := fresh env g; trace := made |} with
    | (σ', Normal _) =>
        ({| ctrl := ctrl σ'; trace := trace σ' ++ [SetInterval 100; TrainerSubscribe] |}, Normal tt)
    | (σ', Throw e) => (σ', Throw e)
    end.
Proof.
  unfold new, mbind, M_bind, emit.
  destruct (onUpdate env _) as [σ' [[]|e]]; [|reflexivity].
  cbn. by rewrite <- app_assoc.
Qed.

Lemma iter_opposite (k : nat) (c : Color) :
  Nat.iter k opposite c = if Nat.even k then c else opposite c.
Proof.
  induction k as [|k IH]; [reflexivity|].
  rewrite Nat.even_succ, <- Nat.negb_even.
  change (Nat.iter (S k) opposite c) with (opposite (Nat.iter k opposite c)). rewrite IH.
  destruct (Nat.even k), c; reflexivity.
Qed.

Lemma attributed_odd (n : nat) :
  attributed n = if Nat.odd n then white else black.
Proof.
  unfold attributed. destruct (Nat.odd n) eqn:Ho.
  - apply Nat.odd_spec in Ho. destruct Ho as [j Hj].
    replace (n `mod` 2) with 1; [reflexivity|].
    rewrite Hj. symmetry. rewrite Nat.add_comm, Nat.mul_comm. apply Nat.Div0.mod_add.
  - assert (He : Nat.even n = true) by (rewrite <- Nat.negb_odd, Ho; reflexivity).
    apply Nat.even_spec in He. destruct He as [j Hj].
    replace (n `mod` 2) with 0; [reflexivity|].
    rewrite Hj. symmetry. rewrite Nat.mul_comm. apply Nat.Div0.mod_mul.
Qed.

Lemma replay_turn (us : list string) (p0 p : Position) :
  (∀ m q q', play m q = (q', None) → turn q' = opposite (turn q)) →
  replay us p0 = (p, None) →
  turn p = Nat.iter (List.length us) opposite (turn p0).
Proof.
  intros Hflip. revert p0. induction us as [|u us IH]; intros p0 Hr.
  - by injection Hr as <-.
  - cbn [replay] in Hr. destruct (play (parseUci u) p0) as [q [e|]] eqn:Hq; [discriminate|].
    rewrite (IH _ Hr), (Hflip _ _ _ Hq). cbn [List.length].
    generalize (List.length us). clear. intros n.
    induction n as [|n IHn]; [reflexivity|].
    change (Nat.iter (S n) opposite (opposite (turn p0)))
      with (opposite (Nat.iter n opposite (opposite (turn p0)))).
    by rewrite IHn.
Qed.


(** C1 (amended): the controller tests no token itself. For a message it
    takes up, the new game or state is installed first. If the initial
    position cannot be set up (the FEN does not parse, or gives no valid
    position), that exception reaches the caller before any token is
    played: position and calls made are as before. Otherwise every token is
    parsed and handed to the engine's [play], in order; the update then
    fails exactly when one of those calls throws, with that exception, and
    the position is the one the replay left at that token. A token that
    parses to a move [isLegal] rejects but [play] accepts is applied like
    any other, and the replay goes on from the position it gives. *)
Theorem update_replays_unchecked (env : Env) (msg : Msg) (σ : Sigma) (c : GameCtrl) :
  install msg (ctrl σ) = Some c →
  let us := tokens (moves (state (game c))) in
  let out := handle env msg σ in
  game (ctrl out.1) = game c
  ∧ match startPosition (game c) with
    | Err e =>
        out.2 = Throw e
        ∧ chess (ctrl out.1) = chess (ctrl σ)
        ∧ trace out.1 = trace σ
    | Ok p0 =>
        chess (ctrl out.1) = (replay us p0).1
        ∧ out.2 = match (replay us p0).2 with None => Normal tt | Some e => Throw e end
        ∧ (∀ vs u ws p m p',
             us = vs ++ u :: ws → replay vs p0 = (p, None) →
             parseUci u = Some m → isLegal p m = false → play (Some m) p = (p', None) →
             chess (ctrl out.1) = (replay ws p').1
             ∧ out.2 = match (replay ws p').2 with None => Normal tt | Some e => Throw e end)
        ∧ (∀ vs u ws p p' e,
             us = vs ++ u :: ws → replay vs p0 = (p, None) →
             play (parseUci u) p = (p', Some e) →
             chess (ctrl out.1) = p' ∧ out.2 = Throw e)
    end.
Proof.
  intros Hi us out.
  destruct (startPosition (game c)) as [p0|e] eqn:Hs.
  - destruct (handle_outcome env msg σ c p0 Hi Hs) as [o1 _ o3 o4 _ _ _].
    fold us in o3, o4. fold out in o1, o3, o4.
    split; [exact o1|]. split; [exact o3|]. split; [exact o4|]. split.
    + intros vs u ws p m p' Hus Hvs Hm _ Hplay.
      rewrite o3, o4, Hus, replay_app, Hvs. cbn [replay]. rewrite Hm, Hplay. by split.
    + intros vs u ws p p' e Hus Hvs Hplay.
      rewrite o3, o4, Hus, replay_app, Hvs. cbn [replay]. rewrite Hplay. by split.
  - unfold out. rewrite (handle_bad_start env msg σ c e Hi Hs). cbn [fst snd ctrl trace].
    destruct (install_frame _ _ _ Hi) as (_ & Hc & _).
    split; [reflexivity|]. split; [reflexivity|]. split; [exact Hc | reflexivity].
Qed.


(** C3 (amended): opening a game sets the watermark to the move count of
    the first message and speaks at most once: nothing for an empty
    history, and for a non-empty one the last move of that history, under
    the side its parity gives. Afterwards a message speaks only when its
    move count is above the watermark, once, for its newest move; and no
    message lowers the watermark. *)
Theorem open_speaks_last_move_only (env : Env) (msg : Msg) (made : list Effect) :
  let us := tokens (moves (state (asGame msg))) in
  let out := handler env msg {| ctrlVar := None; calls := made |} in
  spoken (calls out.1)
  = spoken made ++ match startPosition (asGame msg) with
                   | Ok _ => announcement env 0 us
                   | Err _ => []
                   end
  ∧ (List.length (announcement env 0 us) ≤ 1)%nat
  ∧ announcement env 0 [] = []
  ∧ match ctrlVar out.1 with
    | Some c => lastMoveCount c = List.length us
    | None => True
    end
  ∧ (∀ env' msg' σ,
       (lastMoveCount (ctrl σ) ≤ lastMoveCount (ctrl (handle env' msg' σ).1))%nat)
  ∧ (∀ env' msg' σ,
       spoken (trace (handle env' msg' σ).1)
       = spoken (trace σ)
         ++ match install msg' (ctrl σ) with
            | Some c =>
                match startPosition (game c) with
                | Ok _ => announcement env' (lastMoveCount (ctrl σ)) (tokens (moves (state (game c))))
                | Err _ => []
                end
            | None => []
            end)
  ∧ (∀ env' seen vs, (List.length vs ≤ seen)%nat → announcement env' seen vs = []).
Proof.
  intros us out.
  assert (Hnew : out = match onUpdate env {| ctrl := fresh env (asGame msg); trace := made |} with
                       | (σ', Normal _) =>
                           ({| ctrlVar := Some (ctrl σ');
                               calls := trace σ' ++ [SetInterval 100; TrainerSubscribe] |}, Normal tt)
                       | (σ', Throw e) => ({| ctrlVar := None; calls := trace σ' |}, Throw e)
                       end).
  { unfold out, handler. cbn [ctrlVar calls]. rewrite new_run.
    by destruct (onUpdate env _) as [σ' [[]|e]]. }
  split; [|split; [|split; [|split; [|split; [|split]]]]].
  - rewrite Hnew. destruct (startPosition (asGame msg)) as [p0|e] eqn:Hs.
    + pose proof (onUpdate_outcome env (fresh env (asGame msg)) made p0 Hs) as [_ _ _ _ _ o6 _].
      cbn [fresh game lastMoveCount trace] in o6. fold us in o6.
      destruct (onUpdate env _) as [σ' [[]|e]]; cbn [fst snd calls trace] in *.
      * rewrite spoken_app, o6. cbn. by rewrite app_nil_r.
      * exact o6.
    + rewrite onUpdate_run. cbn [ctrl fresh game]. rewrite Hs. cbn. by rewrite app_nil_r.
  - unfold announcement. destruct (_ && _); cbn; lia.
  - unfold announcement. cbn. by rewrite andb_false_r.
  - rewrite Hnew. destruct (startPosition (asGame msg)) as [p0|e] eqn:Hs.
    + pose proof (onUpdate_outcome env (fresh env (asGame msg)) made p0 Hs) as [_ _ _ o4 o5 _ _].
      cbn [fresh game lastMoveCount] in o5. fold us in o5.
      destruct (onUpdate env _) as [σ' [[]|e]]; cbn [fst snd ctrlVar] in *; [|exact I].
      rewrite o5. lia.
    + rewrite onUpdate_run. cbn [ctrl fresh game]. rewrite Hs. exact I.
  - apply handle_count.
  - intros env' msg' σ. destruct (install msg' (ctrl σ)) as [c|] eqn:Hi.
    + destruct (install_frame _ _ _ Hi) as (_ & _ & Hn & _).
      destruct (startPosition (game c)) as [p0|e] eqn:Hs.
      * rewrite (out_spoken _ _ _ _ _ (handle_outcome env' msg' σ c p0 Hi Hs)). by rewrite Hn.
      * rewrite (handle_bad_start env' msg' σ c e Hi Hs). cbn. by rewrite app_nil_r.
    + rewrite handle_run, Hi. cbn [fst trace]. rewrite spoken_app. cbn. by rewrite app_nil_r.
  - intros env' seen vs Hle. unfold announcement.
    replace (seen <? List.length vs)%nat with false; [by rewrite andb_false_r|].
    symmetry. apply Nat.ltb_ge. lia.
Qed.

(** C4: the point of view is set when the controller is built, to black if
    the black player's identity equals that of the logged-in user and to
    white otherwise, and no message changes it: not one call of [handle],
    and not any run of the stream after the controller exists. *)
Theorem pov_fixed_at_construction :
  (∀ env g, pov (fresh env g)
            = if bool_decide (playerId (blackPlayer g) = me env) then black else white)
  ∧ (∀ env msg made,
       match ctrlVar (handler env msg {| ctrlVar := None; calls := made |}).1 with
       | Some c => pov c = pov (fresh env (asGame msg))
       | None => True
       end)
  ∧ (∀ env msg σ, pov (ctrl (handle env msg σ).1) = pov (ctrl σ))
  ∧ (∀ msgs s c, ctrlVar s = Some c →
       ∃ c', ctrlVar (deliver msgs s) = Some c' ∧ pov c' = pov c).
Proof.
  split; [reflexivity|]. split; [|split; [exact handle_pov|]].
  - intros env msg made. unfold handler. cbn [ctrlVar calls]. rewrite new_run.
    destruct (startPosition (asGame msg)) as [p0|e] eqn:Hs.
    + pose proof (onUpdate_outcome env (fresh env (asGame msg)) made p0 Hs) as [_ o2 _ _ _ _ _].
      destruct (onUpdate env _) as [σ' [[]|e]]; cbn [fst snd ctrlVar ctrl] in *; [exact o2 | exact I].
    + rewrite onUpdate_run. cbn [ctrl fresh game]. rewrite Hs. exact I.
  - intros msgs. induction msgs as [|[env msg] msgs IH]; intros s c Hc.
    + exists c. by split.
    + cbn [deliver].
      assert (Hstep : ∃ c1, ctrlVar (handler env msg s).1 = Some c1 ∧ pov c1 = pov c).
      { unfold handler. rewrite Hc.
        pose proof (handle_pov env msg {| ctrl := c; trace := calls s |}) as Hp.
        destruct (handle env msg _) as [σ' r]. cbn [fst ctrlVar ctrl] in *. eauto. }
      destruct Hstep as (c1 & Hc1 & Hp1).
      destruct (IH _ _ Hc1) as (c' & Hc' & Hp'). exists c'. split; [exact Hc' | congruence].
Qed.

(** C5: submitting a move leaves the game record, its state, the position,
    the last move, the watermark and the point of view as they are; of the
    board's configuration, if a board is attached, it sets the turn color
    to the opponent's and nothing else; and it sends one POST to the move
    URL of the game. Resigning changes no field of the controller and
    sends one POST to the resign URL. *)
Theorem intents_leave_game_alone (orig dest : Key) (σ : Sigma) :
  let um := userMove orig dest σ in
  let rs := resign σ in
  um.2 = Normal tt
  ∧ game (ctrl um.1) = game (ctrl σ)
  ∧ chess (ctrl um.1) = chess (ctrl σ)
  ∧ pov (ctrl um.1) = pov (ctrl σ)
  ∧ lastMove (ctrl um.1) = lastMove (ctrl σ)
  ∧ lastUpdateAt (ctrl um.1) = lastUpdateAt (ctrl σ)
  ∧ lastMoveCount (ctrl um.1) = lastMoveCount (ctrl σ)
  ∧ ground (ctrl um.1) = set_turnColor (opposite (pov (ctrl σ))) <$> ground (ctrl σ)
  ∧ (∀ t g, turnColor (set_turnColor t g) = t
            ∧ orientation (set_turnColor t g) = orientation g
            ∧ fen (set_turnColor t g) = fen g
            ∧ cgLastMove (set_turnColor t g) = cgLastMove g
            ∧ check (set_turnColor t g) = check g
            ∧ movableFree (set_turnColor t g) = movableFree g
            ∧ movableColor (set_turnColor t g) = movableColor g
            ∧ dests (set_turnColor t g) = dests g)
  ∧ trace um.1
    = trace σ ++ [FetchBody ("/api/board/game/" +:+ gameId (game (ctrl σ)) +:+ "/move/"
                             +:+ orig +:+ dest) "post"]
  ∧ rs.2 = Normal tt
  ∧ ctrl rs.1 = ctrl σ
  ∧ trace rs.1
    = trace σ ++ [FetchBody ("/api/board/game/" +:+ gameId (game (ctrl σ)) +:+ "/resign") "post"].
Proof. cbv zeta. repeat split. Qed.

(** C6: a message whose type is neither [gameFull] nor [gameState] is
    written to the console and changes no field of the controller; the
    call returns normally. *)
Theorem unknown_message_only_logged (env : Env) (msg : Msg) (σ : Sigma) :
  msgType msg ≠ Some "gameFull" →
  msgType msg ≠ Some "gameState" →
  handle env msg σ
  = ({| ctrl := ctrl σ;
        trace := trace σ ++ [ConsoleError ("Unknown message type: "
                                           +:+ default "undefined" (msgType msg)) msg] |},
     Normal tt).
Proof.
  intros Hf Hs. rewrite handle_run. unfold install.
  rewrite (bool_decide_eq_false_2 _ Hf), (bool_decide_eq_false_2 _ Hs). reflexivity.
Qed.

(** C8: the side named for the last move is a function of the length of
    the moves list alone, white for an odd length and black for an even
    one, in [getLastMove] as in what [onUpdate] speaks, whatever the
    initial position. When the initial position has black to move and the
    engine's [play] passes the turn, the side named is never the side that
    played the last move. *)
Theorem side_named_by_parity :
  (∀ u us, Util.color <$> Util.getLastMove (u :: us)
           = Some (if Nat.odd (List.length (u :: us)) then white else black))
  ∧ (∀ n, attributed n = if Nat.odd n then white else black)
  ∧ (∀ env c made p0, startPosition (game c) = Ok p0 →
       spoken (trace (onUpdate env {| ctrl := c; trace := made |}).1)
       = spoken made ++ announcement env (lastMoveCount c) (tokens (moves (state (game c)))))
  ∧ (∀ env seen us, text <$> announcement env seen us
       = if hasSpeech env && (seen <? List.length us)%nat
         then [colorName (attributed (List.length us)) +:+ " plays "
               +:+ match last us with Some u => uciToAlgebraic u | None => "" end]
         else [])
  ∧ (∀ g p0, startPosition g = Ok p0 → turn p0 = black →
       tokens (moves (state g)) ≠ [] →
       (replay (tokens (moves (state g))) p0).2 = None →
       (∀ m q q', play m q = (q', None) → turn q' = opposite (turn q)) →
       ∃ mover, lastMover (tokens (moves (state g))) p0 = Some mover
                ∧ mover ≠ attributed (List.length (tokens (moves (state g))))).
Proof.
  split; [|split; [exact attributed_odd|split; [|split]]].
  - intros u us. unfold Util.getLastMove.
    destruct (last (u :: us)) as [l|] eqn:Hl.
    + cbn [fmap option_fmap option_map Util.color]. f_equal.
      pose proof (attributed_odd (List.length (u :: us))) as Ha. unfold attributed in Ha.
      exact Ha.
    + apply last_None in Hl. discriminate Hl.
  - intros env c made p0 Hs.
    by destruct (onUpdate_outcome env c made p0 Hs) as [_ _ _ _ _ o6 _].
  - intros env seen us. unfold announcement. by destruct (_ && _).
  - intros g p0 _ Hb Hne Hr Hflip.
    set (us := tokens (moves (state g))) in *.
    destruct (exists_last Hne) as (vs & u & Hus).
    assert (Hrm : removelast us = vs) by (rewrite Hus; apply removelast_last).
    unfold lastMover. destruct us as [|u0 us0] eqn:Heq; [done|].
    rewrite <- Heq in *. rewrite Hrm.
    exists (turn (replay vs p0).1). split; [reflexivity|].
    rewrite Hus, replay_app in Hr.
    destruct (replay vs p0) as [p [e|]] eqn:Hvs; [discriminate|].
    cbn [fst]. rewrite (replay_turn vs p0 p Hflip Hvs), Hb, iter_opposite.
    rewrite Hus, length_app. cbn [List.length].
    replace (List.length vs + 1)%nat with (S (List.length vs)) by lia.
    rewrite attributed_odd, Nat.odd_succ. by destruct (Nat.even _).
Qed.

End Facts.

(** *** The controller run on the concrete engine *)

Import SimpleChess.

Lemma play_passes_turn (m : option NormalMove) (q q' : Chess) :
  SimpleChess.play m q = (q', None) → sideToMove q' = opposite (sideToMove q).
Proof.
  destruct m as [mv|]; [|discriminate]. unfold SimpleChess.play.
  destruct (pieceAt (board q) (from mv)); intros [= <-]; reflexivity.
Qed.

(** C1, as the specification words it, fails: [g1g3] parses, is not a
    legal move after [e2e4 e7e5], and the update completes normally with
    the knight standing on g3. *)
Lemma illegal_move_is_adopted :
  let out := handle Demo.env (Demo.gameState "e2e4 e7e5 g1g3") (Demo.afterOpen "") in
  let p := (replay ["e2e4"; "e7e5"] defaultPosition).1 in
  let m := {| from := Demo.g1; to := Demo.g3; promotion := None |} in
  (replay ["e2e4"; "e7e5"] defaultPosition).2 = None
  ∧ makeFen p = "rnbqkbnr/pppp1ppp/8/4p3/4P3/8/PPPP1PPP/RNBQKBNR w"
  ∧ parseUci "g1g3" = Some m
  ∧ isLegal p m = false
  ∧ out.2 = Normal tt
  ∧ pieceAt (board (chess (ctrl out.1))) Demo.g3 = Some {| role := knight; color := white |}
  ∧ pieceAt (board (chess (ctrl out.1))) Demo.g1 = None
  ∧ makeFen (toSetup (chess (ctrl out.1)))
    = "rnbqkbnr/pppp1ppp/8/4p3/4P3/6N1/PPPP1PPP/RNBQKB1R b".
Proof. vm_compute. repeat split. Qed.

Lemma update_replays_unchecked_witness :
  let out := handle Demo.env (Demo.gameState "e2e4 zz") (Demo.afterOpen "") in
  let bad := handle Demo.env (Demo.message "gameFull" "not a fen" "e2e4") (Demo.afterOpen "") in
  out.2 = Throw (TypeError "Cannot use 'in' operator to search for 'role' in undefined")
  ∧ state (game (ctrl out.1)) = Demo.stateOf "e2e4 zz"
  ∧ makeFen (toSetup (chess (ctrl out.1))) = "rnbqkbnr/pppppppp/8/8/4P3/8/PPPP1PPP/RNBQKBNR b"
  ∧ bad.2 = Throw (FenError "ERR_BOARD")
  ∧ chess (ctrl bad.1) = chess (ctrl (Demo.afterOpen "")).
Proof.
  cbv zeta.
  pose proof (update_replays_unchecked Demo.env (Demo.gameState "e2e4 zz") (Demo.afterOpen "")
                _ eq_refl) as Hgood.
  pose proof (update_replays_unchecked Demo.env (Demo.message "gameFull" "not a fen" "e2e4")
                (Demo.afterOpen "") _ eq_refl) as Hbad.
  cbv zeta in Hgood, Hbad.
  destruct Hgood as (H1 & H2 & H3 & _). destruct Hbad as (_ & B1 & B2 & _).
  rewrite H3, H2, H1, B1, B2. repeat split.
Defined.



(** C3, as the specification words it, fails: opening a game whose history
    is [e2e4 e7e5] speaks of the second of these moves. *)
Lemma open_speaks_of_history :
  tokens (moves (state (asGame (Demo.gameFull "e2e4 e7e5")))) = ["e2e4"; "e7e5"]
  ∧ spoken (calls (Demo.openedWith "e2e4 e7e5"))
    = [{| text := "black plays e7-e5"; rate := 8; pitch := 9; volume := 7 |}]
  ∧ spoken (calls (Demo.openedWith "e2e4 e7e5")) ≠ [].
Proof. vm_compute. repeat split. discriminate. Qed.

Lemma open_speaks_last_move_only_witness :
  announcement Demo.env 2 ["e2e4"; "e7e5"] = []
  ∧ (lastMoveCount (ctrl (Demo.afterOpen "e2e4 e7e5"))
     ≤ lastMoveCount (ctrl (handle Demo.env (Demo.gameState "e2e4") (Demo.afterOpen "e2e4 e7e5")).1))%nat.
Proof.
  destruct (open_speaks_last_move_only Demo.env (Demo.gameFull "e2e4 e7e5") [])
    as (_ & _ & _ & _ & Hmono & _ & Hquiet).
  split.
  - apply Hquiet. vm_compute. lia.
  - apply Hmono.
Defined.

Lemma pov_fixed_at_construction_witness :
  ∃ c, ctrlVar (deliver [(Demo.env, Demo.gameState "e2e4");
                         (Demo.env, Demo.gameFull "e2e4 e7e5");
                         (Demo.env, Demo.message "chatLine" "startpos" "")]
                        (Demo.openedWith "")) = Some c
       ∧ pov c = white.
Proof.
  destruct (pov_fixed_at_construction (E := engine)) as (_ & _ & _ & Hrun).
  apply (Hrun _ (Demo.openedWith "") (ctrl (Demo.afterOpen ""))). reflexivity.
Defined.

Lemma unknown_message_only_logged_witness :
  handle Demo.env (Demo.message "chatLine" "startpos" "") (Demo.afterOpen "e2e4")
  = ({| ctrl := ctrl (Demo.afterOpen "e2e4");
        trace := trace (Demo.afterOpen "e2e4")
                 ++ [ConsoleError "Unknown message type: chatLine"
                                  (Demo.message "chatLine" "startpos" "")] |},
     Normal tt).
Proof.
  apply (unknown_message_only_logged Demo.env (Demo.message "chatLine" "startpos" "")
           (Demo.afterOpen "e2e4")); discriminate.
Defined.

Lemma side_named_by_parity_witness :
  ∃ mover,
    lastMover (tokens (moves (state (Demo.gameOf Demo.blackFirst "e7e5")))) Demo.blackStart
    = Some mover
    ∧ mover ≠ attributed (List.length (tokens (moves (state (Demo.gameOf Demo.blackFirst "e7e5"))))).
Proof.
  destruct (side_named_by_parity (E := engine)) as (_ & _ & _ & _ & Hblack).
  apply (Hblack (Demo.gameOf Demo.blackFirst "e7e5") Demo.blackStart).
  - reflexivity.
  - reflexivity.
  - discriminate.
  - reflexivity.
  - exact play_passes_turn.
Defined.

(** The same game, run: black plays [e7e5] first and the controller says
    white did. *)
Example black_first_spoken_as_white :
  spoken (new Demo.env (Demo.gameOf Demo.blackFirst "e7e5") []).1.(trace)
  = [{| text := "white plays e7-e5"; rate := 8; pitch := 11; volume := 7 |}]
  ∧ lastMover ["e7e5"] Demo.blackStart = Some black.
Proof. vm_compute. repeat split. Qed.

End GameFacts.

(* ===================================================================== *)
(** ** More on the visualization trainer                                  *)
(* ===================================================================== *)

Module TrainerMore.
Import Trainer.

Lemma pending_app (es es' : list Event) :
  pending (es ++ es') = foldl pendingAfter (pending es) es'.
Proof. unfold pending. apply foldl_app. Qed.

Lemma pending_notifications (p : list TimerId) (cbs : list Callback) (s : VisualizationSettings) :
  foldl pendingAfter p (map (λ cb, Notified cb s) cbs) = p.
Proof. induction cbs as [|cb cbs IH]; [reflexivity | exact IH]. Qed.

Lemma sameTimers_refl w : sameTimers w w.
Proof. by split. Qed.

Lemma sameTimers_trans w1 w2 w3 : sameTimers w1 w2 → sameTimers w2 w3 → sameTimers w1 w3.
Proof. intros [] []. split; congruence. Qed.

Lemma notifyListeners_sameTimers w : sameTimers w (notifyListeners w).
Proof.
  split; [reflexivity|]. unfold notifyListeners, emit. cbn [events].
  by rewrite pending_app, pending_notifications.
Qed.

Lemma updateBoardMode_sameTimers sub w : sameTimers w (updateBoardMode sub w).
Proof. unfold updateBoardMode. destruct (boardElement w); by split. Qed.

Lemma Consistent_sameTimers w w' : sameTimers w w' → Consistent w → Consistent w'.
Proof. intros [Ht Hp] [c1 c2 c3]. split; rewrite ?Ht, ?Hp; assumption. Qed.

Lemma clearMemoryTimer_quiet w :
  pending (events w) = option_list (memoryTimer (trainer w)) →
  memoryTimer (trainer (clearMemoryTimer w)) = None
  ∧ pending (events (clearMemoryTimer w)) = []
  ∧ currentMode (trainer (clearMemoryTimer w)) = currentMode (trainer w)
  ∧ settings (trainer (clearMemoryTimer w)) = settings (trainer w)
  ∧ callbacks (trainer (clearMemoryTimer w)) = callbacks (trainer w).
Proof.
  intros Hp. unfold clearMemoryTimer. destruct (memoryTimer (trainer w)) as [id|] eqn:Ht.
  - cbn [trainer events memoryTimer currentMode settings callbacks].
    rewrite pending_app, Hp. cbn. rewrite decide_False by (intros H; by apply H).
    repeat split.
  - rewrite Ht. repeat split. exact Hp.
Qed.

Lemma quiet_consistent w :
  mode (settings (trainer w)) = currentMode (trainer w) →
  memoryTimer (trainer w) = None →
  pending (events w) = [] →
  Consistent w.
Proof.
  intros Hm Ht Hp. split; [exact Hm | | by rewrite Ht, Hp].
  rewrite Ht. intros [? [=]].
Qed.

Lemma startMemoryTimer_consistent w :
  mode (settings (trainer w)) = currentMode (trainer w) →
  memoryTimer (trainer w) = None →
  pending (events w) = [] →
  currentMode (trainer w) = memory →
  Consistent (startMemoryTimer w).
Proof.
  intros Hm Ht Hp Hc. unfold startMemoryTimer.
  destruct (truthyTime _); [|by apply quiet_consistent].
  split; cbn [trainer events memoryTimer currentMode settings]; [exact Hm | by intros _ |].
  rewrite pending_app, Hp. reflexivity.
Qed.

Lemma setMode_consistent m w : Consistent w → Consistent (setMode m w).
Proof.
  intros [c1 c2 c3].
  destruct (decide (currentMode (trainer w) = m)) as [Heq|Hne].
  - unfold setMode. cbv zeta. destruct (decide _); [by split | contradiction].
  - rewrite (TrainerFacts.setMode_changed _ _ Hne).
    set (w1 := withTrainer w _). unfold afterAssign. cbv zeta.
    destruct (clearMemoryTimer_quiet w1 c3) as (q1 & q2 & q3 & q4 & q5).
    pose proof (sameTimers_trans _ _ _ (notifyListeners_sameTimers (clearMemoryTimer w1))
                  (updateBoardMode_sameTimers None _)) as [Ht Hp].
    set (w4 := updateBoardMode None (notifyListeners (clearMemoryTimer w1))) in *.
    assert (Hm4 : mode (settings (trainer w4)) = currentMode (trainer w4))
      by (rewrite Ht, q3, q4; reflexivity).
    assert (Ht4 : memoryTimer (trainer w4) = None) by (rewrite Ht; exact q1).
    assert (Hp4 : pending (events w4) = []) by (rewrite Hp; exact q2).
    destruct (bool_decide (m = memory)) eqn:Hmem; cbn [andb].
    + destruct (truthyTime _); [|by apply quiet_consistent].
      apply startMemoryTimer_consistent; try assumption.
      rewrite Ht, q3. cbn. by apply bool_decide_eq_true in Hmem.
    + by apply quiet_consistent.
Qed.

Lemma withTrainer_consistent w t :
  mode (settings t) = currentMode t →
  currentMode t = currentMode (trainer w) →
  memoryTimer t = memoryTimer (trainer w) →
  Consistent w → Consistent (withTrainer w t).
Proof.
  intros Hm Hc Ht [c1 c2 c3]. split; cbn [withTrainer trainer events].
  - exact Hm.
  - rewrite Ht, Hc. exact c2.
  - rewrite Ht. exact c3.
Qed.

Lemma toggleShowMoves_consistent w : Consistent w → Consistent (toggleShowMoves w).
Proof.
  intros Hc. unfold toggleShowMoves. cbv zeta.
  eapply Consistent_sameTimers;
    [exact (sameTimers_trans _ _ _ (notifyListeners_sameTimers _) (updateBoardMode_sameTimers None _))|].
  apply withTrainer_consistent; try reflexivity; [|exact Hc]. apply Hc.
Qed.

Lemma toggleShowTargets_consistent w : Consistent w → Consistent (toggleShowTargets w).
Proof.
  intros Hc. unfold toggleShowTargets. cbv zeta.
  eapply Consistent_sameTimers;
    [exact (sameTimers_trans _ _ _ (notifyListeners_sameTimers _) (updateBoardMode_sameTimers None _))|].
  apply withTrainer_consistent; try reflexivity; [|exact Hc]. apply Hc.
Qed.

Lemma setMemoryTime_consistent seconds w : Consistent w → Consistent (setMemoryTime seconds w).
Proof.
  intros Hc. unfold setMemoryTime. cbv zeta.
  set (w1 := withTrainer w _).
  assert (Hc1 : Consistent w1).
  { apply withTrainer_consistent; try reflexivity; [|exact Hc]. apply Hc. }
  destruct (decide (currentMode (trainer w) = memory)) as [Hmem|]; [|exact Hc1].
  destruct Hc1 as [c1 c2 c3].
  destruct (clearMemoryTimer_quiet w1 c3) as (q1 & q2 & q3 & q4 & q5).
  apply startMemoryTimer_consistent; try assumption.
  - by rewrite q3, q4.
  - by rewrite q3.
Qed.

Lemma resetMemoryMode_consistent w : Consistent w → Consistent (resetMemoryMode w).
Proof.
  intros Hc. unfold resetMemoryMode.
  destruct (decide (currentMode (trainer w) = memory)) as [Hmem|]; [|exact Hc].
  destruct Hc as [c1 c2 c3].
  destruct (clearMemoryTimer_quiet w c3) as (q1 & q2 & q3 & q4 & q5).
  destruct (updateBoardMode_sameTimers None (clearMemoryTimer w)) as [Ht Hp].
  apply startMemoryTimer_consistent; rewrite ?Ht, ?Hp; try assumption.
  - by rewrite q3, q4.
  - by rewrite q3.
Qed.

Lemma cycleMode_consistent w : Consistent w → Consistent (cycleMode w).
Proof. rewrite TrainerFacts.cycleMode_setMode. apply setMode_consistent. Qed.

Lemma onPieceInteraction_timers square found w :
  trainer (onPieceInteraction square found w) = trainer w
  ∧ boardElement (onPieceInteraction square found w) = boardElement w
  ∧ pending (events (onPieceInteraction square found w)) = pending (events w)
  ∧ reveals (events (onPieceInteraction square found w))
    = reveals (events w)
      ++ (if bool_decide (currentMode (trainer w) = invisible) && found
          then [(square, nextTimer w)] else []).
Proof.
  unfold onPieceInteraction.
  destruct (decide (currentMode (trainer w) = invisible)) as [Hi|Hi].
  - rewrite (bool_decide_eq_true_2 _ Hi). destruct found; cbn [andb trainer boardElement events].
    + rewrite pending_app. unfold reveals. rewrite omap_app. by repeat split.
    + by rewrite app_nil_r.
  - rewrite (bool_decide_eq_false_2 _ Hi). cbn [andb]. by rewrite app_nil_r.
Qed.

Lemma onPieceInteraction_consistent square found w :
  Consistent w → Consistent (onPieceInteraction square found w).
Proof.
  apply Consistent_sameTimers.
  destruct (onPieceInteraction_timers square found w) as (Ht & _ & Hp & _). by split.
Qed.

Lemma call_consistent c w : Consistent w → Consistent (call c w).
Proof.
  intros Hc. destruct c; cbn [call].
  - by apply setMode_consistent.
  - by apply cycleMode_consistent.
  - by apply toggleShowMoves_consistent.
  - by apply toggleShowTargets_consistent.
  - by apply setMemoryTime_consistent.
  - unfold subscribe. apply withTrainer_consistent; try reflexivity; [apply Hc | exact Hc].
  - unfold unsubscribe. apply withTrainer_consistent; try reflexivity; [apply Hc | exact Hc].
  - exact (Consistent_sameTimers _ _ (updateBoardMode_sameTimers None w) Hc).
  - by apply resetMemoryMode_consistent.
  - exact (Consistent_sameTimers _ _ (updateBoardMode_sameTimers _ w) Hc).
  - by apply setMode_consistent.
  - by apply setMode_consistent.
  - destruct Hc as [c1 c2 c3]. by split.
  - by apply onPieceInteraction_consistent.
Qed.

Lemma run_consistent cs w : Consistent w → Consistent (run cs w).
Proof.
  revert w. induction cs as [|c cs IH]; intros w Hc; [exact Hc|].
  cbn [run foldl]. apply IH. by apply call_consistent.
Qed.

Lemma start_consistent page firstTimer : Consistent (start page firstTimer).
Proof. split; cbn; [reflexivity | intros [? [=]] | reflexivity]. Qed.

(** X1: whatever is called on the trainer, and in whatever order, the mode
    inside the settings object and the current mode stay the same value:
    [getSettings().mode] is [getCurrentMode()]. *)
Theorem settings_mode_is_current_mode (cs : list Call) (page : option (gset string))
    (firstTimer : TimerId) :
  mode (getSettings (run cs (start page firstTimer)))
  = getCurrentMode (run cs (start page firstTimer)).
Proof. apply (settings_mode _ (run_consistent cs _ (start_consistent page firstTimer))). Qed.

(** X2: the trainer holds a memory timer only while the current mode is
    the memory mode. *)
Theorem memory_timer_only_in_memory_mode (cs : list Call) (page : option (gset string))
    (firstTimer : TimerId) :
  memoryTimer (trainer (run cs (start page firstTimer))) = None
  ∨ currentMode (trainer (run cs (start page firstTimer))) = memory.
Proof.
  pose proof (timer_in_memory _ (run_consistent cs _ (start_consistent page firstTimer))) as H.
  destruct (memoryTimer _) as [id|]; [right; apply H; by exists id | by left].
Qed.


Example piece_interactions_pile_up :
  reveals (events (run [CallSetMode invisible;
                        CallPieceInteraction "e4" true;
                        CallPieceInteraction "e4" true;
                        CallPieceInteraction "d5" false;
                        CallSetMode standard] (start None 1)))
  = [("e4", 1); ("e4", 2)].
Proof. reflexivity. Qed.

Lemma viz_prefix_not_hide (s : string) :
  "viz-" +:+ s ≠ "hide-moves" ∧ "viz-" +:+ s ≠ "hide-targets".
Proof. split; discriminate. Qed.

Lemma vizClasses_not_hide (x : string) :
  x ∈ vizClasses → x ≠ "hide-moves" ∧ x ≠ "hide-targets".
Proof.
  unfold vizClasses. rewrite !elem_of_union, !elem_of_singleton.
  intros H. split; intros ->; repeat (destruct H as [H|H]); discriminate H.
Qed.

(** X4: on a page with a board element, [updateBoardMode] leaves the
    element with the class of the mode shown and no other of the eight
    mode classes, with [hide-moves] exactly when moves are not shown and
    [hide-targets] exactly when targets are not shown; every other class
    of the element is kept as it was. *)
Theorem updateBoardMode_classes (sub : option string) (w : World) (cl : gset string) :
  boardElement w = Some cl →
  let modeClass := "viz-" +:+ match sub with
                              | Some s => if Js.truthy s then s
                                          else modeName (currentMode (trainer w))
                              | None => modeName (currentMode (trainer w))
                              end in
  ∃ cl', boardElement (updateBoardMode sub w) = Some cl'
    ∧ modeClass ∈ cl'
    ∧ (∀ x, x ∈ vizClasses → x ∈ cl' → x = modeClass)
    ∧ ("hide-moves" ∈ cl' ↔ showMoves (settings (trainer w)) = false)
    ∧ ("hide-targets" ∈ cl' ↔ showTargets (settings (trainer w)) = false)
    ∧ (∀ x, x ∉ vizClasses → x ≠ modeClass → x ≠ "hide-moves" → x ≠ "hide-targets" →
            (x ∈ cl' ↔ x ∈ cl)).
Proof.
  intros Hb modeClass. unfold updateBoardMode. rewrite Hb. cbv zeta. fold modeClass.
  eexists. split; [reflexivity|].
  destruct (viz_prefix_not_hide (match sub with
                                 | Some s => if Js.truthy s then s
                                             else modeName (currentMode (trainer w))
                                 | None => modeName (currentMode (trainer w))
                                 end)) as [Hv1 Hv2].
  fold modeClass in Hv1, Hv2.
  assert (Hht : "hide-moves" ≠ "hide-targets") by discriminate.
  assert (Hvh : ∀ x, x ∈ vizClasses → x ≠ "hide-moves" ∧ x ≠ "hide-targets")
    by exact vizClasses_not_hide.
  generalize dependent vizClasses. intros viz Hvh.
  destruct (showMoves (settings (trainer w))), (showTargets (settings (trainer w)));
    cbn [negb]; repeat split; set_unfold; naive_solver.
Qed.

(** X5: [updateBoardMode] is idempotent: run again with nothing changed in
    between, it leaves the page as the first run left it; and on a page
    without a board element it does nothing. *)
Theorem updateBoardMode_idempotent (sub : option string) (w : World) :
  updateBoardMode sub (updateBoardMode sub w) = updateBoardMode sub w
  ∧ (boardElement w = None → updateBoardMode sub w = w).
Proof.
  split; [|by unfold updateBoardMode; intros ->].
  unfold updateBoardMode. destruct (boardElement w) as [cl|] eqn:Hb; [|by rewrite Hb].
  cbn [boardElement trainer nextTimer events]. f_equal. f_equal.
  set (mc := "viz-" +:+ match sub with
                        | Some s => if Js.truthy s then s
                                    else modeName (currentMode (trainer w))
                        | None => modeName (currentMode (trainer w))
                        end).
  assert (Hv1 : mc ≠ "hide-moves") by discriminate.
  assert (Hv2 : mc ≠ "hide-targets") by discriminate.
  assert (Hht : "hide-moves" ≠ "hide-targets") by discriminate.
  assert (Hm : "hide-moves" ∉ vizClasses) by (intros H; by apply vizClasses_not_hide in H as [? _]).
  assert (Ht : "hide-targets" ∉ vizClasses) by (intros H; by apply vizClasses_not_hide in H as [_ ?]).
  clearbody mc. generalize dependent vizClasses. intros viz Hm Ht.
  destruct (showMoves (settings (trainer w))), (showTargets (settings (trainer w)));
    cbn [negb]; apply set_eq; intros x; set_unfold; naive_solver.
Qed.

(** X6: [toggleShowMoves] flips the flag, tells every subscriber the new
    settings and updates the page; called twice, it brings the trainer back
    to where it was, with the page as a plain [updateBoardMode] of the
    original would leave it, after two rounds of subscriber calls. *)
Theorem toggleShowMoves_twice (w : World) :
  showMoves (settings (trainer (toggleShowMoves w))) = negb (showMoves (settings (trainer w)))
  ∧ trainer (toggleShowMoves (toggleShowMoves w)) = trainer w
  ∧ boardElement (toggleShowMoves (toggleShowMoves w)) = boardElement (updateBoardMode None w)
  ∧ notified (events (toggleShowMoves (toggleShowMoves w)))
    = notified (events w)
      ++ map (λ cb, (cb, settings (trainer (toggleShowMoves w)))) (callbacks (trainer w))
      ++ map (λ cb, (cb, settings (trainer w))) (callbacks (trainer w)).
Proof.
  destruct w as [[cur [md sm st mt] cbs tm] page nt es].
  unfold toggleShowMoves, updateBoardMode, notifyListeners, withTrainer, emit, getSettings.
  cbn [trainer settings currentMode callbacks memoryTimer boardElement nextTimer events
       mode showMoves showTargets memoryTime].
  destruct page as [cl|];
    cbn [trainer settings currentMode callbacks memoryTimer boardElement nextTimer events
         mode showMoves showTargets memoryTime].
  - rewrite negb_involutive. split; [reflexivity|]. split; [reflexivity|]. split.
    + f_equal.
      set (mc := "viz-" +:+ modeName cur).
      assert (Hv1 : mc ≠ "hide-moves") by discriminate.
      assert (Hv2 : mc ≠ "hide-targets") by discriminate.
      assert (Hht : "hide-moves" ≠ "hide-targets") by discriminate.
      assert (Hm : "hide-moves" ∉ vizClasses)
        by (intros H; by apply vizClasses_not_hide in H as [? _]).
      assert (Ht : "hide-targets" ∉ vizClasses)
        by (intros H; by apply vizClasses_not_hide in H as [_ ?]).
      clearbody mc. generalize dependent vizClasses. intros viz Hm Ht.
      destruct sm, st; cbn [negb]; apply set_eq; intros x; set_unfold;
        destruct (decide (x = "hide-moves")), (decide (x = "hide-targets")); naive_solver.
    + rewrite <- app_assoc, !TrainerFacts.notified_app, !TrainerFacts.notified_map_Notified.
      reflexivity.
  - rewrite negb_involutive. repeat split.
    rewrite <- app_assoc, !TrainerFacts.notified_app, !TrainerFacts.notified_map_Notified.
    reflexivity.
Qed.

Lemma notified_setMode (m : VisualizationMode) (w : World) :
  notified (events (setMode m w))
  = notified (events w)
    ++ (if decide (currentMode (trainer w) = m) then []
        else map (λ cb, (cb, settings (trainer (setMode m w)))) (callbacks (trainer w))).
Proof.
  destruct (decide (currentMode (trainer w) = m)) as [Heq|Hne].
  - unfold setMode. cbv zeta. destruct (decide _); [|contradiction]. by rewrite app_nil_r.
  - rewrite (TrainerFacts.setMode_changed _ _ Hne).
    match goal with |- context [afterAssign m ?w1] =>
      destruct (TrainerFacts.afterAssign_calls m w1) as (_ & a2 & _ & a4) end.
    rewrite a4, a2. reflexivity.
Qed.

(** X7: [unsubscribe] removes every registration of the callback, however
    often it was subscribed, and keeps the others in their order; a
    callback subscribed and unsubscribed again leaves the list as it was if
    it was not registered before; and a later [setMode] does not call it. *)
Theorem unsubscribe_removes_all (cb : Callback) (w : World) :
  (cb ∉ callbacks (trainer (unsubscribe cb w)))
  ∧ (cb ∉ callbacks (trainer (unsubscribe cb (subscribe cb (subscribe cb w)))))
  ∧ (∀ other, other ≠ cb →
       filter (λ c, c = other) (callbacks (trainer (unsubscribe cb w)))
       = filter (λ c, c = other) (callbacks (trainer w)))
  ∧ (cb ∉ callbacks (trainer w) →
       callbacks (trainer (unsubscribe cb (subscribe cb w))) = callbacks (trainer w))
  ∧ (∀ m s, (cb, s) ∈ notified (events (setMode m (unsubscribe cb w))) →
            (cb, s) ∈ notified (events w)).
Proof.
  unfold unsubscribe, subscribe, withTrainer. cbn [trainer callbacks events].
  split; [|split; [|split; [|split]]].
  - rewrite list_elem_of_filter. by intros [? _].
  - rewrite list_elem_of_filter. by intros [? _].
  - intros other Hne. induction (callbacks (trainer w)) as [|c cs IH]; [reflexivity|].
    rewrite filter_cons. destruct (decide (c ≠ cb)) as [Hc|Hc].
    + rewrite !filter_cons, IH. reflexivity.
    + rewrite IH, filter_cons. destruct (decide (c = other)) as [->|]; [|reflexivity].
      exfalso. apply Hc. exact Hne.
  - intros Hnot. rewrite filter_app. cbn. rewrite decide_False by (intros H; by apply H).
    rewrite app_nil_r. induction (callbacks (trainer w)) as [|c cs IH]; [reflexivity|].
    rewrite not_elem_of_cons in Hnot. destruct Hnot as [Hc Hcs].
    rewrite filter_cons, decide_True by congruence. by rewrite IH.
  - intros m s. rewrite notified_setMode. rewrite elem_of_app.
    intros [Hin|Hin]; [exact Hin|]. exfalso.
    destruct (decide _); [by apply elem_of_nil in Hin|].
    apply list_elem_of_fmap in Hin as (c & [= -> _] & Hc).
    cbn [trainer callbacks] in Hc. apply list_elem_of_filter in Hc as [Hc _]. by apply Hc.
Qed.

Lemma timerCalls_app (es es' : list Event) :
  timerCalls (es ++ es') = timerCalls es ++ timerCalls es'.
Proof. unfold timerCalls. apply filter_app. Qed.

Lemma timerCalls_notifications (cbs : list Callback) (s : VisualizationSettings) :
  timerCalls (map (λ cb, Notified cb s) cbs) = [].
Proof. induction cbs as [|cb cbs IH]; [reflexivity | exact IH]. Qed.

Lemma updateBoardMode_events sub w :
  events (updateBoardMode sub w) = events w ∧ trainer (updateBoardMode sub w) = trainer w
  ∧ nextTimer (updateBoardMode sub w) = nextTimer w.
Proof. unfold updateBoardMode. by destruct (boardElement w). Qed.

(** The timer calls of [clearMemoryTimer] followed by [startMemoryTimer]
    when [restart] holds, with page updates and subscriber calls between. *)
Lemma restart_timer_calls (w wc w4 : World) (restart : bool) :
  wc = clearMemoryTimer w →
  trainer w4 = trainer wc → nextTimer w4 = nextTimer wc →
  timerCalls (events w4) = timerCalls (events wc) →
  let w' := if restart && truthyTime (memoryTime (settings (trainer w4)))
            then startMemoryTimer w4 else w4 in
  memoryTimer (trainer w')
  = (if restart && truthyTime (memoryTime (settings (trainer w)))
     then Some (nextTimer w) else None)
  ∧ timerCalls (events w')
    = timerCalls (events w)
      ++ match memoryTimer (trainer w) with Some id => [ClearTimeout id] | None => [] end
      ++ (if restart && truthyTime (memoryTime (settings (trainer w)))
          then [SetTimeout (nextTimer w) (default 0%Z (memoryTime (settings (trainer w))))]
          else []).
Proof.
  intros -> Ht Hn He. cbv zeta.
  assert (Hs : settings (trainer (clearMemoryTimer w)) = settings (trainer w))
    by (unfold clearMemoryTimer; by destruct (memoryTimer (trainer w))).
  assert (Hnt : nextTimer (clearMemoryTimer w) = nextTimer w)
    by (unfold clearMemoryTimer; by destruct (memoryTimer (trainer w))).
  assert (Hm : memoryTimer (trainer (clearMemoryTimer w)) = None)
    by (unfold clearMemoryTimer; by destruct (memoryTimer (trainer w)) eqn:E; rewrite ?E).
  assert (Hc : timerCalls (events (clearMemoryTimer w))
               = timerCalls (events w)
                 ++ match memoryTimer (trainer w) with Some id => [ClearTimeout id] | None => [] end).
  { unfold clearMemoryTimer. destruct (memoryTimer (trainer w)); cbn [events].
    - by rewrite timerCalls_app.
    - by rewrite app_nil_r. }
  rewrite Ht, Hs. destruct (restart && truthyTime _) eqn:Hr.
  - apply andb_true_iff in Hr as [_ Htr]. unfold startMemoryTimer.
    rewrite Ht, Hs, Htr. cbn [trainer memoryTimer events].
    rewrite Hn, Hnt, timerCalls_app, He, Hc, <- app_assoc. by split.
  - rewrite Ht, Hm, He, Hc, app_nil_r. by split.
Qed.

(** X8: a [setMode] that changes the mode cancels the memory timer it
    holds, if any, and starts a new one exactly when the new mode is the
    memory mode and the memory time is set and not zero; the new timer runs
    for the memory time. These are all its timer calls. *)
Theorem setMode_timer (m : VisualizationMode) (w : World) :
  currentMode (trainer w) ≠ m →
  memoryTimer (trainer (setMode m w))
  = (if bool_decide (m = memory) && truthyTime (memoryTime (settings (trainer w)))
     then Some (nextTimer w) else None)
  ∧ timerCalls (events (setMode m w))
    = timerCalls (events w)
      ++ match memoryTimer (trainer w) with Some id => [ClearTimeout id] | None => [] end
      ++ (if bool_decide (m = memory) && truthyTime (memoryTime (settings (trainer w)))
          then [SetTimeout (nextTimer w) (default 0%Z (memoryTime (settings (trainer w))))]
          else []).
Proof.
  intros Hne. rewrite (TrainerFacts.setMode_changed _ _ Hne). unfold afterAssign. cbv zeta.
  set (w1 := withTrainer w _).
  destruct (updateBoardMode_events None (notifyListeners (clearMemoryTimer w1))) as (He & Ht & Hn).
  apply (restart_timer_calls w1 (clearMemoryTimer w1) _ (bool_decide (m = memory)) eq_refl).
  - by rewrite Ht.
  - by rewrite Hn.
  - rewrite He. unfold notifyListeners, emit. cbn [events].
    by rewrite timerCalls_app, timerCalls_notifications, app_nil_r.
Qed.

(** X9: [setMemoryTime] stores the time in milliseconds and calls no
    subscriber. Outside the memory mode it touches no timer. In the memory
    mode it cancels the timer held and starts one for the new time, unless
    the new time is zero: then no timer is started. *)
Theorem setMemoryTime_timer (seconds : Z) (w : World) :
  memoryTime (settings (trainer (setMemoryTime seconds w))) = Some (seconds * 1000)%Z
  ∧ notified (events (setMemoryTime seconds w)) = notified (events w)
  ∧ (currentMode (trainer w) ≠ memory →
       events (setMemoryTime seconds w) = events w
       ∧ memoryTimer (trainer (setMemoryTime seconds w)) = memoryTimer (trainer w))
  ∧ (currentMode (trainer w) = memory →
       memoryTimer (trainer (setMemoryTime seconds w))
       = (if (seconds =? 0)%Z then None else Some (nextTimer w))
       ∧ timerCalls (events (setMemoryTime seconds w))
         = timerCalls (events w)
           ++ match memoryTimer (trainer w) with Some id => [ClearTimeout id] | None => [] end
           ++ (if (seconds =? 0)%Z then [] else [SetTimeout (nextTimer w) (seconds * 1000)%Z])).
Proof.
  unfold setMemoryTime. cbv zeta. set (w1 := withTrainer w _).
  assert (Htruthy : truthyTime (Some (seconds * 1000)%Z) = negb (seconds =? 0)%Z).
  { cbn. f_equal. destruct (Z.eqb_spec seconds 0) as [->|Hz]; [reflexivity|].
    apply Z.eqb_neq. lia. }
  assert (Hstart : ∀ x, memoryTime (settings (trainer (startMemoryTimer x)))
                        = memoryTime (settings (trainer x))
                        ∧ notified (events (startMemoryTimer x)) = notified (events x)).
  { intros x. unfold startMemoryTimer. cbv zeta.
    destruct (truthyTime (memoryTime (settings (trainer x)))); [|split; reflexivity].
    cbn [trainer settings events]. rewrite TrainerFacts.notified_app. cbn.
    rewrite app_nil_r. split; reflexivity. }
  assert (Hclear : memoryTime (settings (trainer (clearMemoryTimer w1))) = Some (seconds * 1000)%Z
                   ∧ notified (events (clearMemoryTimer w1)) = notified (events w)).
  { unfold clearMemoryTimer. destruct (memoryTimer (trainer w1)); cbn [trainer settings events];
      rewrite ?TrainerFacts.notified_app; cbn; rewrite ?app_nil_r; by split. }
  destruct (decide (currentMode (trainer w) = memory)) as [Hmem|Hmem].
  - destruct (Hstart (clearMemoryTimer w1)) as [s1 s2]. destruct Hclear as [c1 c2].
    split; [by rewrite s1|]. split; [by rewrite s2|]. split; [by intros ?|]. intros _.
    pose proof (restart_timer_calls w1 (clearMemoryTimer w1) (clearMemoryTimer w1) true
                  eq_refl eq_refl eq_refl eq_refl) as Hr.
    cbv zeta in Hr. cbn [andb] in Hr. rewrite c1 in Hr.
    change (memoryTime (settings (trainer w1))) with (Some (seconds * 1000)%Z) in Hr.
    rewrite Htruthy in Hr.
    assert (Hsame : startMemoryTimer (clearMemoryTimer w1)
                    = if negb (seconds =? 0)%Z then startMemoryTimer (clearMemoryTimer w1)
                      else clearMemoryTimer w1).
    { destruct (negb (seconds =? 0)%Z) eqn:Hz; [reflexivity|].
      unfold startMemoryTimer. cbv zeta. by rewrite c1, Htruthy. }
    rewrite Hsame. destruct Hr as [r1 r2]. rewrite r1, r2.
    destruct (seconds =? 0)%Z; by split.
  - split; [reflexivity|]. split; [reflexivity|].
    split; [intros _; by split | intros ?; contradiction].
Qed.

(** X10: the legacy piece-set view of the trainer. After [setPieceSet] the
    current piece set is the one asked for; [togglePieceSet] always changes
    the piece set, and two toggles restore it; but the mode they restore is
    standard or minimal, not another mode the trainer was in. *)
Theorem pieceSet_round_trip (set : PieceSet) (w : World) :
  getCurrentPieceSet (setPieceSet set w) = set
  ∧ getCurrentPieceSet (togglePieceSet w) ≠ getCurrentPieceSet w
  ∧ getCurrentPieceSet (togglePieceSet (togglePieceSet w)) = getCurrentPieceSet w
  ∧ currentMode (trainer (togglePieceSet (togglePieceSet w)))
    = (if decide (currentMode (trainer w) = standard) then standard else minimal).
Proof.
  unfold getCurrentPieceSet, setPieceSet, togglePieceSet, getCurrentMode.
  rewrite !TrainerFacts.setMode_currentMode.
  destruct set; destruct (currentMode (trainer w)); cbn; repeat split; discriminate.
Qed.

(** X11: [getAllModes] lists the seven modes in the order [cycleMode] walks
    through, and every mode has a description: [getModeDescription] is
    never undefined and is the label listed for the current mode. *)
Theorem modes_listed_in_cycle_order (w : World) :
  getAllModes.*1 = modeName <$> modes
  ∧ ∃ label, getModeDescription w = Some label
             ∧ (modeName (currentMode (trainer w)), label) ∈ getAllModes.
Proof.
  split; [reflexivity|]. unfold getModeDescription.
  destruct (currentMode (trainer w)); eexists; (split; [reflexivity|]);
    unfold getAllModes, modeDescriptions; cbn; set_solver.
Qed.

Lemma updateBoardMode_classes_witness :
  ∃ cl', boardElement (updateBoardMode None demoWorld) = Some cl' ∧ "viz-standard" ∈ cl'.
Proof.
  destruct (updateBoardMode_classes None demoWorld {[ "cg-wrap" ]} eq_refl) as (cl' & H1 & H2 & _).
  exists cl'. split; [exact H1 | exact H2].
Defined.

Lemma updateBoardMode_idempotent_witness :
  updateBoardMode (Some "memory-hidden") (start None 1) = start None 1.
Proof.
  apply (proj2 (updateBoardMode_idempotent (Some "memory-hidden") (start None 1))). reflexivity.
Defined.

Lemma unsubscribe_removes_all_witness :
  callbacks (trainer (unsubscribe 3 (subscribe 3 demoWorld))) = [1; 2].
Proof.
  destruct (unsubscribe_removes_all 3 demoWorld) as (_ & _ & _ & Hback & _).
  apply Hback. cbn. rewrite !not_elem_of_cons. repeat split; try lia. apply not_elem_of_nil.
Defined.

Lemma setMode_timer_witness :
  memoryTimer (trainer (setMode memory demoWorld)) = Some 1
  ∧ timerCalls (events (setMode memory demoWorld)) = [SetTimeout 1 5000].
Proof.
  assert (Hne : currentMode (trainer demoWorld) ≠ memory) by discriminate.
  destruct (setMode_timer memory demoWorld Hne) as [H1 H2].
  rewrite H1, H2. split; reflexivity.
Defined.

Lemma setMemoryTime_timer_witness :
  memoryTimer (trainer (setMemoryTime 0 (setMode memory (start None 1)))) = None
  ∧ events (setMemoryTime 10 (start None 1)) = [].
Proof.
  split.
  - destruct (setMemoryTime_timer 0 (setMode memory (start None 1))) as (_ & _ & _ & Hmem).
    destruct (Hmem eq_refl) as [H1 _]. rewrite H1. reflexivity.
  - destruct (setMemoryTime_timer 10 (start None 1)) as (_ & _ & Hout & _).
    apply Hout. discriminate.
Defined.

End TrainerMore.

(* ===================================================================== *)
(** ** More on the game controller                                        *)
(* ===================================================================== *)

Module GameMore.
Import Game.
Import GameFacts.

Section More.
Context `{E : RulesEngine}.

Lemma onUpdate_normal (env : Env) (σ : Sigma) :
  (onUpdate env σ).2 = Normal tt →
  ∃ p0, startPosition (game (ctrl σ)) = Ok p0
        ∧ (replay (tokens (moves (state (game (ctrl σ))))) p0).2 = None
        ∧ (onUpdate env σ).1
          = finish env (tokens (moves (state (game (ctrl σ)))))
              {| ctrl := set_chess (replay (tokens (moves (state (game (ctrl σ))))) p0).1
                           (ctrl (announce env (tokens (moves (state (game (ctrl σ)))))
                                    {| ctrl := set_chess p0 (ctrl σ); trace := trace σ |}));
                 trace := trace (announce env (tokens (moves (state (game (ctrl σ)))))
                                   {| ctrl := set_chess p0 (ctrl σ); trace := trace σ |}) |}.
Proof.
  rewrite onUpdate_run. destruct (startPosition _) as [p0|e]; [|discriminate].
  cbv zeta. set (us := tokens (moves (state (game (ctrl σ))))).
  destruct (replay us p0) as [p [e|]] eqn:Hr; cbn [fst snd]; [discriminate|].
  intros _. exists p0. rewrite Hr. by repeat split.
Qed.

Lemma onUpdate_throw (env : Env) (σ : Sigma) (e : Thrown) :
  (onUpdate env σ).2 = Throw e →
  lastMove (ctrl (onUpdate env σ).1) = lastMove (ctrl σ)
  ∧ lastUpdateAt (ctrl (onUpdate env σ).1) = lastUpdateAt (ctrl σ)
  ∧ ground (ctrl (onUpdate env σ).1) = ground (ctrl σ)
  ∧ ∃ said, trace (onUpdate env σ).1 = trace σ ++ (Speak <$> said).
Proof.
  rewrite onUpdate_run. destruct (startPosition _) as [p0|e0].
  - cbv zeta. destruct (replay _ p0) as [p [e1|]]; cbn [fst snd]; [|discriminate].
    intros _. repeat split. unfold announce. cbn [trace]. eauto.
  - intros _. repeat split. exists []. cbn. by rewrite app_nil_r.
Qed.

Lemma install_is_Some (msg : Msg) (c c' : GameCtrl) :
  is_Some (install msg c) → is_Some (install msg c').
Proof.
  unfold install. destruct (bool_decide (msgType msg = Some "gameFull"));
    [|destruct (bool_decide (msgType msg = Some "gameState"))];
    intros [x Hx]; try discriminate Hx; eexists; reflexivity.
Qed.

Lemma install_fields (msg : Msg) (c c' : GameCtrl) :
  install msg c = Some c' →
  lastMove c' = lastMove c ∧ lastUpdateAt c' = lastUpdateAt c ∧ ground c' = ground c.
Proof.
  unfold install. destruct (bool_decide (msgType msg = Some "gameFull"));
    [|destruct (bool_decide (msgType msg = Some "gameState"))];
    intros [= <-]; repeat split.
Qed.

Lemma finish_ground (env : Env) (us : list string) (σ : Sigma) :
  ground (ctrl (finish env us σ))
  = (λ _, chessgroundConfig (ctrl (finish env us σ))) <$> ground (ctrl σ).
Proof.
  destruct σ as [[g pv ch lm lu gr n] tr]. unfold finish. cbn.
  destruct gr; reflexivity.
Qed.

(** X12: when a full-state or incremental-state message has been handled
    without an exception, a board that is attached has been given exactly
    the configuration the controller now computes (position, last move,
    turn, check, destinations); a controller without a board stays without
    one. *)
Theorem board_in_sync_after_update (env : Env) (msg : Msg) (σ : Sigma) :
  is_Some (install msg (ctrl σ)) →
  (handle env msg σ).2 = Normal tt →
  ground (ctrl (handle env msg σ).1)
  = (λ _, chessgroundConfig (ctrl (handle env msg σ).1)) <$> ground (ctrl σ).
Proof.
  intros [c Hi] Hn. rewrite handle_run, Hi in *.
  destruct (install_fields _ _ _ Hi) as (_ & _ & Hg). rewrite <- Hg.
  destruct (onUpdate env {| ctrl := c; trace := trace σ |}) as [σ' r] eqn:Hu.
  assert (Hr : (onUpdate env {| ctrl := c; trace := trace σ |}).2 = Normal tt).
  { rewrite Hu. destruct r as [[]|e]; [reflexivity | discriminate]. }
  destruct (onUpdate_normal _ _ Hr) as (p0 & _ & _ & Hfin).
  rewrite Hu in Hfin. cbn [fst] in Hfin. destruct r as [[]|e]; [|discriminate].
  cbn [fst ctrl]. rewrite Hfin, finish_ground. reflexivity.
Qed.

Lemma redraws_app es es' : redraws (es ++ es') = (redraws es + redraws es')%nat.
Proof. unfold redraws. by rewrite omap_app, length_app. Qed.

Lemma redraws_Speak us : redraws (Speak <$> us) = 0%nat.
Proof. induction us as [|u us IH]; [reflexivity | exact IH]. Qed.

(** X13: a message handled with an exception leaves the last move, the
    time of the last update and the board's configuration as they were and
    asks for no redraw; a message handled without one stamps the update
    with the current time and asks for exactly one redraw, as its last call. *)
Theorem redraw_exactly_on_success (env : Env) (msg : Msg) (σ : Sigma) :
  is_Some (install msg (ctrl σ)) →
  match (handle env msg σ).2 with
  | Throw _ =>
      lastMove (ctrl (handle env msg σ).1) = lastMove (ctrl σ)
      ∧ lastUpdateAt (ctrl (handle env msg σ).1) = lastUpdateAt (ctrl σ)
      ∧ ground (ctrl (handle env msg σ).1) = ground (ctrl σ)
      ∧ redraws (trace (handle env msg σ).1) = redraws (trace σ)
  | Normal _ =>
      lastUpdateAt (ctrl (handle env msg σ).1) = now env
      ∧ redraws (trace (handle env msg σ).1) = S (redraws (trace σ))
      ∧ last (trace (handle env msg σ).1) = Some Redraw
  end.
Proof.
  intros [c Hi]. rewrite handle_run, Hi.
  destruct (install_fields _ _ _ Hi) as (Hl & Ht & Hg). rewrite <- Hl, <- Ht, <- Hg.
  destruct (onUpdate env {| ctrl := c; trace := trace σ |}) as [σ' r] eqn:Hu.
  destruct r as [[]|e]; cbn [fst snd ctrl trace].
  - assert (Hr : (onUpdate env {| ctrl := c; trace := trace σ |}).2 = Normal tt) by by rewrite Hu.
    destruct (onUpdate_normal _ _ Hr) as (p0 & _ & _ & Hfin).
    rewrite Hu in Hfin. cbn [fst ctrl trace] in Hfin. subst σ'.
    split; [|split; [|by rewrite last_snoc]].
    + unfold finish. cbn. by destruct (ground c).
    + rewrite redraws_app. unfold finish, announce. cbn [trace ctrl].
      rewrite !redraws_app, redraws_Speak. cbn.
      destruct (bool_decide _); [destruct (ground c)|]; cbn; lia.
  - assert (Hr : (onUpdate env {| ctrl := c; trace := trace σ |}).2 = Throw e) by by rewrite Hu.
    destruct (onUpdate_throw _ _ _ Hr) as (t1 & t2 & t3 & said & t4).
    rewrite Hu in t1, t2, t3, t4. cbn [fst ctrl trace] in *.
    repeat split; try assumption. rewrite t4, redraws_app, redraws_Speak. lia.
Qed.

Lemma handle_ctrl (env : Env) (msg : Msg) (σ : Sigma) :
  ctrl (handle env msg σ).1
  = match install msg (ctrl σ) with
    | None => ctrl σ
    | Some c =>
        match startPosition (game c) with
        | Err _ => c
        | Ok p0 =>
            let us := tokens (moves (state (game c))) in
            let c2 := set_chess (replay us p0).1
                        (set_lastMoveCount (Nat.max (lastMoveCount c) (List.length us))
                           (set_chess p0 c)) in
            match (replay us p0).2 with
            | Some _ => c2
            | None => ctrl (finish env us {| ctrl := c2; trace := [] |})
            end
        end
    end.
Proof.
  rewrite handle_run. destruct (install msg (ctrl σ)) as [c|]; [|reflexivity].
  rewrite onUpdate_run. cbn [ctrl trace]. destruct (startPosition (game c)) as [p0|e]; [|reflexivity].
  cbv zeta. destruct (replay _ p0) as [p [e|]]; cbn [fst snd]; reflexivity.
Qed.

Lemma install_again (msg : Msg) (c c' c'' : GameCtrl) :
  install msg c = Some c' →
  game c'' = game c' →
  install msg c'' = Some (set_game (game c') c'').
Proof.
  unfold install. destruct (bool_decide (msgType msg = Some "gameFull"));
    [|destruct (bool_decide (msgType msg = Some "gameState"))];
    intros [= <-] Hg; [reflexivity|].
  cbn [set_state set_game game] in *. unfold set_state. rewrite Hg. reflexivity.
Qed.

(** X14: handling the same message a second time, at the same clock
    reading, leaves every field of the controller as the first handling
    left it, and speaks nothing: a repeated state message is harmless. *)
Theorem duplicate_message_changes_nothing (env : Env) (msg : Msg) (σ : Sigma) :
  ctrl (handle env msg (handle env msg σ).1).1 = ctrl (handle env msg σ).1
  ∧ spoken (trace (handle env msg (handle env msg σ).1).1) = spoken (trace (handle env msg σ).1).
Proof.
  split.
  - rewrite (handle_ctrl env msg (handle env msg σ).1), (handle_ctrl env msg σ).
    destruct (install msg (ctrl σ)) as [c|] eqn:Hi.
    + destruct (startPosition (game c)) as [p0|e] eqn:Hs.
      * cbv zeta. set (us := tokens (moves (state (game c)))).
        destruct (replay us p0) as [p [e|]] eqn:Hr; cbn [fst snd].
        -- erewrite (install_again msg _ c); [|exact Hi|reflexivity].
           cbn [game set_game set_chess set_lastMoveCount]. rewrite Hs. cbv zeta. fold us.
           rewrite Hr. cbn [fst snd lastMoveCount set_game set_chess set_lastMoveCount].
           destruct c as [g pv ch lm lu gr n]. cbn.
           rewrite <- Nat.max_assoc, Nat.max_id. reflexivity.
        -- erewrite (install_again msg _ c); [|exact Hi|].
           2:{ unfold finish. cbn. by destruct (ground c). }
           destruct c as [g pv ch lm lu gr n]. unfold finish. subst us. cbn in *.
           destruct gr; cbn; rewrite Hs; cbn; rewrite Hr; cbn;
             rewrite <- Nat.max_assoc, Nat.max_id; reflexivity.
      * erewrite (install_again msg _ c); [|exact Hi|reflexivity].
        cbn [game set_game]. rewrite Hs. by destruct c.
    + assert (Hn : install msg (ctrl σ) = None → ∀ c', install msg c' = None).
      { unfold install. destruct (bool_decide (msgType msg = Some "gameFull"));
          [|destruct (bool_decide (msgType msg = Some "gameState"))]; by intros. }
      by rewrite (Hn Hi).
  - destruct (install msg (ctrl σ)) as [c|] eqn:Hi.
    + destruct (startPosition (game c)) as [p0|e] eqn:Hs.
      * destruct (handle_outcome env msg σ c p0 Hi Hs) as [o1 _ _ _ o5 _ _].
        pose proof (install_again msg _ c (ctrl (handle env msg σ).1) Hi o1) as Hi1.
        assert (Hs1 : startPosition (game (set_game (game c) (ctrl (handle env msg σ).1))) = Ok p0)
          by exact Hs.
        destruct (handle_outcome env msg (handle env msg σ).1 _ p0 Hi1 Hs1) as [_ _ _ _ _ o6 _].
        rewrite o6. cbn [game set_game lastMoveCount]. rewrite o5.
        unfold announcement.
        replace (_ <? _)%nat with false; [by rewrite andb_false_r, app_nil_r|].
        symmetry. apply Nat.ltb_ge. lia.
      * rewrite (handle_bad_start env msg σ c e Hi Hs). cbn [fst].
        pose proof (install_again msg _ c c Hi eq_refl) as Hi1.
        rewrite (handle_bad_start env msg {| ctrl := c; trace := trace σ |} _ e Hi1 Hs).
        reflexivity.
    + assert (Hn : ∀ c', install msg c' = None).
      { revert Hi. unfold install. destruct (bool_decide (msgType msg = Some "gameFull"));
          [|destruct (bool_decide (msgType msg = Some "gameState"))]; by intros. }
      rewrite (handle_run env msg (handle env msg σ).1), Hn. cbn [fst trace].
      rewrite spoken_app. cbn. by rewrite app_nil_r.
Qed.

Lemma finish_now (env env' : Env) (us : list string) (σ : Sigma) :
  now env = now env' → ctrl (finish env us σ) = ctrl (finish env' us σ).
Proof. intros H. unfold finish. by rewrite H. Qed.

Lemma handle_completion (env : Env) (msg : Msg) (σ : Sigma) :
  (handle env msg σ).2
  = match install msg (ctrl σ) with
    | None => Normal tt
    | Some c =>
        match startPosition (game c) with
        | Err e => Throw e
        | Ok p0 =>
            match (replay (tokens (moves (state (game c)))) p0).2 with
            | Some e => Throw e
            | None => Normal tt
            end
        end
    end.
Proof.
  rewrite handle_run. destruct (install msg (ctrl σ)) as [c|]; [|reflexivity].
  rewrite onUpdate_run. cbn [ctrl trace]. destruct (startPosition (game c)) as [p0|e]; [|reflexivity].
  cbv zeta. destruct (replay _ p0) as [p [e|]]; cbn [fst snd]; reflexivity.
Qed.

Lemma handle_spoken (env : Env) (msg : Msg) (σ : Sigma) :
  spoken (trace (handle env msg σ).1)
  = spoken (trace σ)
    ++ match install msg (ctrl σ) with
       | Some c =>
           match startPosition (game c) with
           | Ok _ => announcement env (lastMoveCount (ctrl σ)) (tokens (moves (state (game c))))
           | Err _ => []
           end
       | None => []
       end.
Proof.
  destruct (install msg (ctrl σ)) as [c|] eqn:Hi.
  - destruct (install_frame _ _ _ Hi) as (_ & _ & Hn & _).
    destruct (startPosition (game c)) as [p0|e] eqn:Hs.
    + rewrite (out_spoken _ _ _ _ _ (handle_outcome env msg σ c p0 Hi Hs)). by rewrite Hn.
    + rewrite (handle_bad_start env msg σ c e Hi Hs). cbn. by rewrite app_nil_r.
  - rewrite handle_run, Hi. cbn [fst trace]. rewrite spoken_app. cbn. by rewrite app_nil_r.
Qed.

(** X15: whether the window can speak decides what is spoken and nothing
    else: with the same clock reading, a message leaves the same controller
    and the same completion with or without speech synthesis; without it
    nothing is spoken, and the watermark advances all the same. *)
Theorem speech_synthesis_only_decides_speech (env env' : Env) (msg : Msg) (σ : Sigma) :
  now env = now env' →
  ctrl (handle env msg σ).1 = ctrl (handle env' msg σ).1
  ∧ (handle env msg σ).2 = (handle env' msg σ).2
  ∧ (hasSpeech env = false → spoken (trace (handle env msg σ).1) = spoken (trace σ)).
Proof.
  intros Hnow. split; [|split].
  - rewrite !handle_ctrl. destruct (install msg (ctrl σ)) as [c|]; [|reflexivity].
    destruct (startPosition (game c)) as [p0|e]; [|reflexivity]. cbv zeta.
    destruct (replay _ p0) as [p [e|]]; cbn [fst snd]; [reflexivity|].
    by apply finish_now.
  - by rewrite !handle_completion.
  - intros Hno. rewrite handle_spoken. unfold announcement. rewrite Hno. cbn [andb].
    destruct (install msg (ctrl σ)) as [c|]; [|by rewrite app_nil_r].
    destruct (startPosition (game c)); by rewrite app_nil_r.
Qed.

Lemma split_app (sep : ascii) (a b : string) :
  Js.split sep (a +:+ String sep b)
  = Js.split sep a ++ Js.split sep b.
Proof.
  induction a as [|c a IH]; simpl.
  - by rewrite Ascii.eqb_refl.
  - destruct (Ascii.eqb c sep); [by rewrite IH|].
    rewrite IH. destruct (Js.split sep a) as [|w ws] eqn:Ha; [|reflexivity].
    exfalso. destruct a as [|c' a']; cbn in Ha; [discriminate|].
    destruct (Ascii.eqb c' sep); [discriminate|]. by destruct (Js.split sep a').
Qed.

Lemma tokens_app (a b : string) :
  tokens (a +:+ " " +:+ b) = tokens a ++ tokens b.
Proof.
  unfold tokens. change (" " +:+ b) with (String " " b). by rewrite split_app, filter_app.
Qed.

Lemma split_pieces (sep : ascii) (s : string) :
  Forall (λ t, sep ∉ String.list_ascii_of_string t) (Js.split sep s).
Proof.
  induction s as [|c s IH]; cbn [Js.split].
  - constructor; [|constructor]. cbn. apply not_elem_of_nil.
  - destruct (Ascii.eqb_spec c sep) as [->|Hne].
    + constructor; [cbn; apply not_elem_of_nil | exact IH].
    + destruct (Js.split sep s) as [|w ws]; [constructor; [|constructor]|].
      * cbn. rewrite not_elem_of_cons. split; [congruence | apply not_elem_of_nil].
      * inversion IH as [|? ? Hw Hws]; subst. constructor; [|exact Hws].
        cbn. rewrite not_elem_of_cons. split; [congruence | exact Hw].
Qed.

Lemma split_whole (sep : ascii) (s : string) :
  sep ∉ String.list_ascii_of_string s → Js.split sep s = [s].
Proof.
  induction s as [|c s IH]; [reflexivity|]. cbn [String.list_ascii_of_string Js.split].
  rewrite not_elem_of_cons. intros [Hne Hs].
  destruct (Ascii.eqb_spec c sep) as [->|_]; [contradiction|]. by rewrite (IH Hs).
Qed.

(** X16: the tokens cut from a moves string are never empty and never
    contain a space; a moves string extended by a space and more text has
    the tokens of both parts, in order; and a non-empty text without a
    space is its own single token. *)
Theorem tokens_are_words (s : string) :
  Forall (λ t, t ≠ "" ∧ " "%char ∉ String.list_ascii_of_string t) (tokens s)
  ∧ (∀ a b, tokens (a +:+ " " +:+ b) = tokens a ++ tokens b)
  ∧ (s ≠ "" → " "%char ∉ String.list_ascii_of_string s → tokens s = [s])
  ∧ tokens "" = [].
Proof.
  split; [|split; [exact tokens_app|split; [|reflexivity]]].
  - unfold tokens. apply Forall_forall. intros t Ht.
    apply list_elem_of_filter in Ht as [Htr Hin]. split.
    + intros ->. discriminate Htr.
    + pose proof (split_pieces " " s) as Hall. rewrite Forall_forall in Hall. by apply Hall.
  - intros Hne Hsp. unfold tokens. rewrite (split_whole _ _ Hsp).
    destruct s; [contradiction|reflexivity].
Qed.

(** X17: when an incremental-state message extends the moves by a token
    and the watermark is not above the earlier count, exactly one sentence
    is spoken, about that last token and under the side the new count
    gives; moves that arrived with it are passed over in silence. *)
Theorem only_newest_move_is_spoken (env : Env) (msg : Msg) (σ : Sigma) (p0 : Position)
    (old u : string) :
  msgType msg = Some "gameState" →
  startPosition (game (ctrl σ)) = Ok p0 →
  hasSpeech env = true →
  moves (asState msg) = old +:+ " " +:+ u →
  tokens u = [u] →
  (lastMoveCount (ctrl σ) ≤ List.length (tokens old))%nat →
  spoken (trace (handle env msg σ).1)
  = spoken (trace σ)
    ++ [{| text := colorName (attributed (S (List.length (tokens old)))) +:+ " plays "
                   +:+ uciToAlgebraic u;
           rate := 8;
           pitch := match attributed (S (List.length (tokens old))) with
                    | white => 11 | black => 9 end;
           volume := 7 |}]
  ∧ lastMoveCount (ctrl (handle env msg σ).1) = S (List.length (tokens old)).
Proof.
  intros Hty Hs Hsp Hmv Hu Hle.
  assert (Hi : install msg (ctrl σ) = Some (set_state (asState msg) (ctrl σ))).
  { unfold install. rewrite Hty. reflexivity. }
  destruct (handle_outcome env msg σ _ p0 Hi Hs) as [_ _ _ _ o5 o6 _].
  cbn [set_state set_game game state lastMoveCount] in *.
  rewrite Hmv, tokens_app, Hu in o5, o6. rewrite length_app in o5. cbn [List.length] in o5.
  split; [|rewrite o5; lia].
  rewrite o6. f_equal. unfold announcement. rewrite Hsp, last_snoc, length_app. cbn [andb List.length].
  replace (List.length (tokens old) + 1)%nat with (S (List.length (tokens old))) by lia.
  replace (_ <? _)%nat with true; [reflexivity|]. symmetry. apply Nat.ltb_lt. lia.
Qed.





(** X20: the first message of the stream builds the controller whatever
    its type says: only its payload, read as a game, counts. If building
    throws, no controller is kept and no timer or subscription is made, so
    the next message is again treated as the first; if it succeeds the
    controller is kept and the redraw timer and the trainer subscription
    are its last two calls. *)
Theorem first_message_builds_controller (env : Env) (msg : Msg) (made : list Effect) :
  (∀ msg', asGame msg' = asGame msg →
     handler env msg' {| ctrlVar := None; calls := made |}
     = handler env msg {| ctrlVar := None; calls := made |})
  ∧ match (handler env msg {| ctrlVar := None; calls := made |}).2 with
    | Normal _ =>
        is_Some (ctrlVar (handler env msg {| ctrlVar := None; calls := made |}).1)
        ∧ ∃ before, calls (handler env msg {| ctrlVar := None; calls := made |}).1
                    = before ++ [SetInterval 100; TrainerSubscribe]
    | Throw _ =>
        ctrlVar (handler env msg {| ctrlVar := None; calls := made |}).1 = None
        ∧ ∃ said, calls (handler env msg {| ctrlVar := None; calls := made |}).1
                  = made ++ (Speak <$> said)
    end.
Proof.
  split.
  - intros msg' Hg. unfold handler. cbn [ctrlVar calls]. by rewrite Hg.
  - unfold handler. cbn [ctrlVar calls]. rewrite new_run.
    destruct (onUpdate env {| ctrl := fresh env (asGame msg); trace := made |}) as [σ' r] eqn:Hu.
    destruct r as [[]|e]; cbn [fst snd ctrlVar calls].
    + split; [by eexists | by eexists].
    + split; [reflexivity|].
      assert (Hr : (onUpdate env {| ctrl := fresh env (asGame msg); trace := made |}).2 = Throw e)
        by by rewrite Hu.
      destruct (onUpdate_throw _ _ _ Hr) as (_ & _ & _ & said & t4).
      rewrite Hu in t4. cbn [fst trace] in t4. eauto.
Qed.

(** X25: what [onUpdate] speaks is what [getLastMove] and [speakMove] of
    util.ts give for the same list of tokens: the sentence names the colour
    and the display form [getLastMove] reports, and there is one exactly
    when the list is longer than the watermark. *)
Theorem controller_speech_agrees_with_util (env : Env) (c : GameCtrl) (made : list Effect)
    (p0 : Position) :
  startPosition (game c) = Ok p0 →
  spoken (trace (onUpdate env {| ctrl := c; trace := made |}).1)
  = spoken made
    ++ (if (lastMoveCount c <? List.length (tokens (moves (state (game c)))))%nat
        then option_list
               (Util.getLastMove (tokens (moves (state (game c)))) ≫= λ lm,
                  Util.speakMove (hasSpeech env) (Util.algebraic lm) (Util.color lm))
        else []).
Proof.
  intros Hs. destruct (onUpdate_outcome env c made p0 Hs) as [_ _ _ _ _ o6 _].
  rewrite o6. cbn [trace]. f_equal.
  unfold announcement, attributed, Util.getLastMove, Util.speakMove.
  set (us := tokens (moves (state (game c)))).
  destruct (Nat.ltb_spec (lastMoveCount c) (List.length us)) as [Hlt|Hge];
    [|by rewrite andb_false_r].
  rewrite andb_true_r. destruct (last us) as [l|] eqn:Hl.
  - cbn. destruct (hasSpeech env); [|reflexivity]. cbn.
    destruct (_ =? 1)%nat; reflexivity.
  - apply last_None in Hl. rewrite Hl in Hlt. cbn in Hlt. lia.
Qed.

End More.

(** *** The controller with a board, run on the concrete engine *)

#[local] Existing Instance SimpleChess.engine.

Lemma board_in_sync_after_update_witness :
  ground (ctrl (handle Demo.env (Demo.gameState "e2e4") (Demo.attached "")).1)
  = Some (chessgroundConfig (ctrl (handle Demo.env (Demo.gameState "e2e4") (Demo.attached "")).1)).
Proof.
  apply (board_in_sync_after_update Demo.env (Demo.gameState "e2e4") (Demo.attached "")).
  - eexists. reflexivity.
  - vm_compute. reflexivity.
Defined.

Lemma redraw_exactly_on_success_witness :
  redraws (trace (handle Demo.env (Demo.gameState "e2e4 zz") (Demo.attached "")).1)
  = redraws (trace (Demo.attached ""))
  ∧ redraws (trace (handle Demo.env (Demo.gameState "e2e4") (Demo.attached "")).1)
    = S (redraws (trace (Demo.attached ""))).
Proof.
  split.
  - assert (Hi : is_Some (install (Demo.gameState "e2e4 zz") (ctrl (Demo.attached ""))))
      by (eexists; reflexivity).
    pose proof (redraw_exactly_on_success Demo.env _ _ Hi) as H.
    assert (Hr : (handle Demo.env (Demo.gameState "e2e4 zz") (Demo.attached "")).2
                 = Throw (TypeError "Cannot use 'in' operator to search for 'role' in undefined"))
      by (vm_compute; reflexivity).
    rewrite Hr in H. apply H.
  - assert (Hi : is_Some (install (Demo.gameState "e2e4") (ctrl (Demo.attached ""))))
      by (eexists; reflexivity).
    pose proof (redraw_exactly_on_success Demo.env _ _ Hi) as H.
    assert (Hr : (handle Demo.env (Demo.gameState "e2e4") (Demo.attached "")).2 = Normal tt)
      by (vm_compute; reflexivity).
    rewrite Hr in H. apply H.
Defined.

Lemma speech_synthesis_only_decides_speech_witness :
  spoken (trace (handle Demo.mute (Demo.gameState "e2e4") (Demo.afterOpen "")).1)
  = spoken (trace (Demo.afterOpen ""))
  ∧ ctrl (handle Demo.mute (Demo.gameState "e2e4") (Demo.afterOpen "")).1
    = ctrl (handle Demo.env (Demo.gameState "e2e4") (Demo.afterOpen "")).1.
Proof.
  destruct (speech_synthesis_only_decides_speech Demo.mute Demo.env (Demo.gameState "e2e4")
              (Demo.afterOpen "") eq_refl) as (H1 & _ & H3).
  split; [apply H3; reflexivity | exact H1].
Defined.

Lemma tokens_are_words_witness : tokens "e2e4" = ["e2e4"].
Proof.
  destruct (tokens_are_words "e2e4") as (_ & _ & Hone & _).
  apply Hone; [discriminate|]. cbn. rewrite !not_elem_of_cons.
  repeat split; try discriminate. apply not_elem_of_nil.
Defined.

Lemma only_newest_move_is_spoken_witness :
  spoken (trace (handle Demo.env (Demo.gameState "e2e4 e7e5 g1f3") (Demo.afterOpen "e2e4")).1)
  = spoken (trace (Demo.afterOpen "e2e4"))
    ++ [{| text := "white plays g1-f3"; rate := 8; pitch := 11; volume := 7 |}].
Proof.
  edestruct (only_newest_move_is_spoken Demo.env (Demo.gameState "e2e4 e7e5 g1f3")
               (Demo.afterOpen "e2e4") defaultPosition "e2e4 e7e5" "g1f3")
    as [H _]; [reflexivity | reflexivity | reflexivity | reflexivity | reflexivity
               | vm_compute; lia |].
  rewrite H. reflexivity.
Defined.



Lemma first_message_builds_controller_witness :
  handler Demo.env (Demo.message "chatLine" "startpos" "e2e4")
          {| ctrlVar := None; calls := [] |}
  = handler Demo.env (Demo.gameFull "e2e4") {| ctrlVar := None; calls := [] |}.
Proof.
  apply (proj1 (first_message_builds_controller (E := SimpleChess.engine)
                  Demo.env (Demo.gameFull "e2e4") [])).
  reflexivity.
Defined.

Lemma controller_speech_agrees_with_util_witness :
  spoken (trace (onUpdate Demo.env
                   {| ctrl := set_state (Demo.stateOf "e2e4 e7e5") (ctrl (Demo.afterOpen "e2e4"));
                      trace := [] |}).1)
  = [{| text := "black plays e7-e5"; rate := 8; pitch := 9; volume := 7 |}].
Proof.
  rewrite (controller_speech_agrees_with_util Demo.env
             (set_state (Demo.stateOf "e2e4 e7e5") (ctrl (Demo.afterOpen "e2e4")))
             [] defaultPosition eq_refl).
  reflexivity.
Defined.

End GameMore.

(* ===================================================================== *)
(** ** The views and the piece-set manager                                *)
(* ===================================================================== *)

Module ViewFacts.

Lemma shown_token (u : string) : Js.truthy u = true → ViewGame.shown (Some u) = ViewGame.uciToAlgebraic u.
Proof. intros H. unfold ViewGame.shown. by rewrite H. Qed.

(** X21: the move list's helper gives the first five characters of what
    the helper of util.ts gives, and the same text exactly for tokens of at
    most four characters: a promotion is read out and shown beside the
    player, but not shown in the move list. *)
Theorem move_list_drops_promotion (u : string) :
  ViewGame.uciToAlgebraic u = Js.substring (Util.uciToAlgebraic u) 0 5
  ∧ (ViewGame.uciToAlgebraic u = Util.uciToAlgebraic u ↔ (Js.length u ≤ 4)%nat)
  ∧ ViewBoard.uciToAlgebraic u = Util.uciToAlgebraic u.
Proof.
  split; [|split; [|reflexivity]].
  - destruct u as [|a [|b [|c [|d [|e rest]]]]]; reflexivity.
  - destruct u as [|a [|b [|c [|d [|e rest]]]]];
      try (split; [intros _; cbn; lia | reflexivity]).
    unfold ViewGame.uciToAlgebraic, Util.uciToAlgebraic. cbn.
    split; [intros H; discriminate H | lia].
Qed.

Lemma steps_length (n : nat) : List.length (ViewGame.steps n) = ((n + 1) / 2)%nat.
Proof. unfold ViewGame.steps. by rewrite length_fmap, length_seq. Qed.

Lemma moveHistory_lookup (moves : list string) (k : nat) :
  (k < (List.length moves + 1) / 2)%nat →
  ViewGame.moveHistory moves !! k
  = Some {| ViewGame.moveNumber := k + 1;
            ViewGame.whiteMove := ViewGame.shown (moves !! (2 * k));
            ViewGame.blackMove := ViewGame.shown (moves !! (2 * k + 1)) |}.
Proof.
  intros Hk. unfold ViewGame.moveHistory, ViewGame.steps.
  rewrite !list_lookup_fmap, lookup_seq_lt by exact Hk. cbn [fmap option_fmap option_map].
  unfold ViewGame.movePair. rewrite Nat.mul_comm, Nat.div_mul by lia.
  by rewrite Nat.mul_comm.
Qed.

Lemma moveHistory_numbers (moves : list string) :
  ViewGame.moveNumber <$> ViewGame.moveHistory moves = seq 1 ((List.length moves + 1) / 2).
Proof.
  unfold ViewGame.moveHistory, ViewGame.steps. rewrite <- !list_fmap_compose.
  rewrite <- fmap_S_seq. apply list_fmap_ext. intros _ k _.
  unfold compose, ViewGame.movePair. cbn [ViewGame.moveNumber].
  rewrite (Nat.mul_comm 2 k), Nat.div_mul by lia. lia.
Qed.

(** X22: the move list has one row for every two moves, the last one for a
    single move if the count is odd; the rows are numbered from 1, and of
    these the last eight are rendered, so the numbers shown are consecutive
    and end with the number of the last row. *)
Theorem move_list_rows (moves : string) :
  let n := List.length (Game.tokens moves) in
  List.length (ViewGame.moveHistory (Game.tokens moves)) = ((n + 1) / 2)%nat
  ∧ ViewGame.moveNumber <$> ViewGame.moveHistory (Game.tokens moves) = seq 1 ((n + 1) / 2)
  ∧ List.length (ViewGame.renderMoveList moves) = Nat.min 8 ((n + 1) / 2)
  ∧ ViewGame.moveNumber <$> ViewGame.renderMoveList moves
    = seq (1 + ((n + 1) / 2 - 8)) (Nat.min 8 ((n + 1) / 2)).
Proof.
  cbv zeta. set (ms := Game.tokens moves).
  assert (Hlen : List.length (ViewGame.moveHistory ms) = ((List.length ms + 1) / 2)%nat).
  { unfold ViewGame.moveHistory. by rewrite length_fmap, steps_length. }
  split; [exact Hlen|]. split; [apply moveHistory_numbers|].
  unfold ViewGame.renderMoveList, ViewGame.sliceLast. fold ms. split.
  - rewrite length_drop, Hlen. lia.
  - rewrite fmap_drop, moveHistory_numbers, Hlen, drop_seq. f_equal; lia.
Qed.

(** X23: every move of the moves string is in the move list before it is
    cut to eight rows: the move at an even index is the white text of the
    row of half that index, the move at an odd index the black text of that
    row, each in the short form; the last row of an odd count has an empty
    black text. *)
Theorem move_list_holds_every_move (moves : string) (j : nat) (u : string) :
  Game.tokens moves !! j = Some u →
  ∃ row, ViewGame.moveHistory (Game.tokens moves) !! (j / 2) = Some row
         ∧ ViewGame.moveNumber row = (j / 2 + 1)%nat
         ∧ (if Nat.even j then ViewGame.whiteMove row else ViewGame.blackMove row)
           = ViewGame.uciToAlgebraic u
         ∧ (Nat.even j = true → S j = List.length (Game.tokens moves) →
            ViewGame.blackMove row = "").
Proof.
  intros Hj. set (ms := Game.tokens moves) in *.
  assert (Hlt : (j < List.length ms)%nat) by (eapply lookup_lt_Some; exact Hj).
  assert (Htr : Js.truthy u = true).
  { apply list_elem_of_lookup_2 in Hj. unfold ms, Game.tokens in Hj.
    by apply list_elem_of_filter in Hj as [? _]. }
  assert (Hk : (j / 2 < (List.length ms + 1) / 2)%nat).
  { apply Nat.Div0.div_lt_upper_bound.
    pose proof (Nat.Div0.div_mod (List.length ms + 1) 2) as Hd.
    pose proof (Nat.mod_upper_bound (List.length ms + 1) 2). lia. }
  exists {| ViewGame.moveNumber := j / 2 + 1;
            ViewGame.whiteMove := ViewGame.shown (ms !! (2 * (j / 2)));
            ViewGame.blackMove := ViewGame.shown (ms !! (2 * (j / 2) + 1)) |}.
  split; [apply (moveHistory_lookup ms _ Hk)|].
  cbn [ViewGame.moveNumber ViewGame.whiteMove ViewGame.blackMove].
  split; [reflexivity|].
  pose proof (Nat.Div0.div_mod j 2) as Hd.
  destruct (Nat.even j) eqn:He.
  - assert (Hm : (j mod 2 = 0)%nat).
    { apply Nat.even_spec in He as [h ->]. rewrite Nat.mul_comm. apply Nat.Div0.mod_mul. }
    replace (2 * (j / 2))%nat with j by lia. rewrite Hj.
    split; [by apply shown_token|].
    intros _ Hlast. rewrite lookup_ge_None_2 by lia. reflexivity.
  - assert (Hm : (j mod 2 = 1)%nat).
    { assert (Ho : Nat.odd j = true) by (rewrite <- Nat.negb_even, He; reflexivity).
      apply Nat.odd_spec in Ho as [h ->].
      rewrite Nat.add_comm, Nat.mul_comm. apply Nat.Div0.mod_add. }
    replace (2 * (j / 2) + 1)%nat with j by lia. rewrite Hj.
    split; [by apply shown_token | discriminate].
Qed.

Lemma scan_top (moves : list string) (isWhite : bool) (i : nat) :
  ((i + 1) mod 2 =? 1)%nat = isWhite →
  ViewBoard.scan moves isWhite (S i)
  = Some (match moves !! i with Some u => ViewBoard.uciToAlgebraic u | None => "" end).
Proof. intros H. cbn [ViewBoard.scan]. rewrite H. by destruct isWhite. Qed.

Lemma mod2_odd (n : nat) : (n mod 2 =? 1)%nat = Nat.odd n.
Proof.
  destruct (Nat.odd n) eqn:Ho.
  - apply Nat.odd_spec in Ho as [h ->]. apply Nat.eqb_eq.
    rewrite Nat.add_comm, Nat.mul_comm. apply Nat.Div0.mod_add.
  - assert (He : Nat.even n = true) by (rewrite <- Nat.negb_odd, Ho; reflexivity).
    apply Nat.even_spec in He as [h ->]. apply Nat.eqb_neq.
    rewrite Nat.mul_comm, Nat.Div0.mod_mul. lia.
Qed.

Lemma scan_second (moves : list string) (isWhite : bool) (i : nat) :
  ((S i + 1) mod 2 =? 1)%nat = negb isWhite →
  ViewBoard.scan moves isWhite (S (S i))
  = Some (match moves !! i with Some u => ViewBoard.uciToAlgebraic u | None => "" end).
Proof.
  intros H. cbn [ViewBoard.scan]. rewrite H.
  assert (Hi : ((i + 1) mod 2 =? 1)%nat = isWhite).
  { rewrite mod2_odd in *. replace (S i + 1)%nat with (S (S i)) in H by lia.
    replace (i + 1)%nat with (S i) by lia.
    rewrite Nat.odd_succ_succ in H. rewrite Nat.odd_succ, <- Nat.negb_odd, H.
    apply negb_involutive. }
  destruct isWhite; cbn [negb Bool.eqb]; rewrite Hi; reflexivity.
Qed.

(** X24: beside each player stands that side's last move, found by list
    parity: for the side [getLastMove] names it is the last move of the
    list, for the other side the move before it; there is none for either
    side of an empty list, and none for black after a single move. *)
Theorem last_move_for_color (ms : list string) (u v : string) :
  ViewBoard.getLastMoveForColor [] white = None
  ∧ ViewBoard.getLastMoveForColor [] black = None
  ∧ ViewBoard.getLastMoveForColor [u] black = None
  ∧ (Util.algebraic <$> Util.getLastMove (ms ++ [u])
     = ViewBoard.getLastMoveForColor (ms ++ [u])
         (if (List.length (ms ++ [u]) mod 2 =? 1)%nat then white else black))
  ∧ ViewBoard.getLastMoveForColor (ms ++ [u; v])
      (if (List.length (ms ++ [u; v]) mod 2 =? 1)%nat then black else white)
    = Some (Util.uciToAlgebraic u).
Proof.
  split; [reflexivity|]. split; [reflexivity|]. split; [reflexivity|]. split.
  - unfold Util.getLastMove, ViewBoard.getLastMoveForColor.
    rewrite last_snoc, length_app. cbn [List.length fmap option_fmap option_map Util.algebraic].
    replace (List.length ms + 1)%nat with (S (List.length ms)) by lia.
    cbn [Nat.eqb]. rewrite scan_top.
    + rewrite lookup_app_r, Nat.sub_diag by lia. reflexivity.
    + replace (List.length ms + 1)%nat with (S (List.length ms)) by lia.
      by destruct (_ =? 1)%nat.
  - unfold ViewBoard.getLastMoveForColor. rewrite length_app. cbn [List.length].
    replace (List.length ms + 2)%nat with (S (S (List.length ms))) by lia.
    cbn [Nat.eqb]. rewrite scan_second.
    + rewrite lookup_app_r, Nat.sub_diag by lia. reflexivity.
    + replace (S (List.length ms) + 1)%nat with (S (S (List.length ms))) by lia.
      by destruct (_ =? 1)%nat.
Qed.

(** X26: once the piece-set manager has written to a board element, the
    element carries the class of the current piece set and not the class of
    the other one, and its other classes are untouched. [setPieceSet] with
    the current piece set writes nothing and calls no subscriber. *)
Theorem piece_set_class_on_board (p : PieceSets.PieceSet) (w : PieceSets.World) (cl : gset string) :
  PieceSets.boardElement w = Some cl →
  PieceSets.currentPieceSet (PieceSets.manager w) ≠ p →
  PieceSets.setPieceSet (PieceSets.currentPieceSet (PieceSets.manager w)) w = w
  ∧ PieceSets.getCurrentPieceSet (PieceSets.setPieceSet p w) = p
  ∧ PieceSets.called (PieceSets.setPieceSet p w)
    = PieceSets.called w ++ map (λ cb, (cb, p)) (PieceSets.callbacks (PieceSets.manager w))
  ∧ ∃ cl', PieceSets.boardElement (PieceSets.setPieceSet p w) = Some cl'
      ∧ (("piece-set-" +:+ PieceSets.pieceSetName p) ∈ cl')
      ∧ (("piece-set-" +:+ PieceSets.pieceSetName (PieceSets.currentPieceSet (PieceSets.manager w))) ∉ cl')
      ∧ (∀ x, x ≠ "piece-set-cburnett" → x ≠ "piece-set-transp" → (x ∈ cl' ↔ x ∈ cl)).
Proof.
  intros Hb Hne. unfold PieceSets.setPieceSet, PieceSets.getCurrentPieceSet.
  rewrite decide_True by reflexivity. rewrite decide_False by exact Hne.
  unfold PieceSets.updateBoardPieceSet, PieceSets.notifyListeners.
  cbn [PieceSets.boardElement PieceSets.manager PieceSets.called PieceSets.currentPieceSet
       PieceSets.callbacks].
  rewrite Hb. cbn [PieceSets.boardElement PieceSets.manager PieceSets.called
                   PieceSets.currentPieceSet PieceSets.callbacks].
  split; [reflexivity|]. split; [reflexivity|]. split; [reflexivity|].
  eexists. split; [reflexivity|].
  destruct p, (PieceSets.currentPieceSet (PieceSets.manager w)); try contradiction; cbn;
    repeat split; set_unfold; naive_solver.
Qed.

(** X27: [togglePieceSet] always changes the piece set, and two toggles
    bring the manager back to the piece set and subscriber list it had,
    after calling every subscriber twice: first with the other piece set,
    then with the original one. *)
Theorem piece_set_toggle_twice (w : PieceSets.World) :
  PieceSets.getCurrentPieceSet (PieceSets.togglePieceSet w) ≠ PieceSets.getCurrentPieceSet w
  ∧ PieceSets.manager (PieceSets.togglePieceSet (PieceSets.togglePieceSet w)) = PieceSets.manager w
  ∧ PieceSets.called (PieceSets.togglePieceSet (PieceSets.togglePieceSet w))
    = PieceSets.called w
      ++ map (λ cb, (cb, PieceSets.getCurrentPieceSet (PieceSets.togglePieceSet w)))
             (PieceSets.callbacks (PieceSets.manager w))
      ++ map (λ cb, (cb, PieceSets.getCurrentPieceSet w))
             (PieceSets.callbacks (PieceSets.manager w)).
Proof.
  destruct w as [[p cbs] b c].
  unfold PieceSets.togglePieceSet, PieceSets.setPieceSet, PieceSets.getCurrentPieceSet,
    PieceSets.updateBoardPieceSet, PieceSets.notifyListeners.
  destruct p, b; cbn;
    repeat (first [rewrite decide_True by reflexivity | rewrite decide_False by discriminate]; cbn);
    rewrite <- ?app_assoc; repeat split; discriminate.
Qed.

Lemma move_list_holds_every_move_witness :
  ∃ row, ViewGame.moveHistory (Game.tokens "e2e4 e7e5 e7e8q") !! 1 = Some row
         ∧ ViewGame.whiteMove row = "e7-e8" ∧ ViewGame.blackMove row = "".
Proof.
  destruct (move_list_holds_every_move "e2e4 e7e5 e7e8q" 2 "e7e8q" eq_refl)
    as (row & H1 & _ & H3 & H4).
  exists row. split; [exact H1|]. split; [exact H3 | by apply H4].
Defined.

Lemma piece_set_class_on_board_witness :
  PieceSets.getCurrentPieceSet (PieceSets.setPieceSet PieceSets.transp PieceSets.demoWorld)
  = PieceSets.transp
  ∧ PieceSets.called (PieceSets.setPieceSet PieceSets.transp PieceSets.demoWorld)
    = [(1, PieceSets.transp); (2, PieceSets.transp)].
Proof.
  assert (Hne : PieceSets.currentPieceSet (PieceSets.manager PieceSets.demoWorld) ≠ PieceSets.transp)
    by discriminate.
  destruct (piece_set_class_on_board PieceSets.transp PieceSets.demoWorld {[ "cg-wrap" ]}
              eq_refl Hne) as (_ & H2 & H3 & _).
  split; [exact H2 | exact H3].
Defined.

End ViewFacts.
